(** * acled_concat: consolidation of ACLED CSV shards

    A shallow embedding of [acled_concat/cli.py] and the properties of its
    shard discovery, schema normalisation and merge engine.

    Modelling choices, shared by the whole development:
    - a normalised table (a frame whose columns are exactly [RETAINED_COLS])
      is the list of its rows, in index order; a row is a record [Event];
    - a table as read from a CSV file is a [RawFrame]: the names of the
      columns it has, and its rows; a cell under a name that is not among
      the columns is not part of the table;
    - cells hold values (no missing cells): [event_date], [timestamp] and
      [iso] are integers, in the order of the dates, edit times and codes
      they stand for;
    - a [timestamp] column has a dtype ([int64], [uint64] or [float64]);
      the merge compares the cells as the column stores them, and
      [pd.concat] first casts two columns of different dtypes to [float64],
      which rounds integers beyond [2 ^ 53] in magnitude;
    - [event_id_cnty] and file names are strings of characters with code
      points below 256, compared character by character as Python compares
      [str]; among these characters [\d] matches the ten digits only;
    - a path of the source directory is its file name, and the directory
      is the list of its entries in the order the file system gives them;
    - an exception is a value of [exn]; a function that may raise returns a
      [result], and the monad of [result] sequences the statements. *)

From Stdlib Require Import ZArith String Ascii DecimalString.
From stdpp Require Import gmap strings list sorting.

Local Open Scope Z_scope.

(** ** Exceptions and results *)

Inductive value_error : Type :=
  | UnmappedIso (unknown : gset Z)
  | MissingColumns (missing_cols : gset string).

Inductive exn : Type :=
  | RuntimeError (msg : string)
  | ValueError (e : value_error)
  | AttributeError (attr : string)
  | IndexError
  | AssertionError
  | OSError (msg : string).

Inductive result (A : Type) : Type :=
  | Ok (a : A)
  | Raise (e : exn).
Arguments Ok {A} a.
Arguments Raise {A} e.

Global Instance result_ret : MRet result := λ A a, Ok a.
Global Instance result_bind : MBind result := λ A B k r,
  match r with
  | Ok a => k a
  | Raise e => Raise e
  end.

(** ** Data model *)

Record Event : Type := mkEvent {
  event_id_cnty : string;
  iso : Z;
  iso3 : string;
  event_date : Z;
  timestamp : Z;
  _orig_fname : string;
  (* the 24 other retained columns, carried through unchanged *)
  attributes : list string
}.

Global Instance Event_eq_dec : EqDecision Event.
Proof. solve_decision. Defined.

Abbreviation DataFrame := (list Event).

Record RawFrame : Type := mkRaw {
  columns : list string;
  rows : list Event
}.

Definition RETAINED_COLS : list string :=
  [ "event_id_cnty"; "iso"; "iso3"; "event_date"; "year";
    "time_precision"; "event_type"; "sub_event_type";
    "actor1"; "assoc_actor_1"; "inter1"; "actor2"; "assoc_actor_2";
    "inter2"; "interaction"; "region"; "country";
    "admin1"; "admin2"; "admin3"; "location"; "latitude"; "longitude";
    "geo_precision"; "source"; "source_scale"; "notes"; "fatalities";
    "timestamp"; "_orig_fname" ].

(** ** Table operations of pandas used by the merge *)

(** [Series.max()] and [Series.min()]: the empty column has no extremum. *)
Definition series_max (s : list Z) : option Z :=
  match s with
  | [] => None
  | x :: s' => Some (fold_left Z.max s' x)
  end.

Definition series_min (s : list Z) : option Z :=
  match s with
  | [] => None
  | x :: s' => Some (fold_left Z.min s' x)
  end.

(** [a < b] on two extrema; a comparison with a missing one is false. *)
Definition date_lt (a b : option Z) : bool :=
  match a, b with
  | Some x, Some y => x <? y
  | _, _ => false
  end.

Section stable_sort.
Context {A : Type} (le : A → A → bool).

(** Stable insertion: [x] came before every row of [l] and stays before
    the rows it is not greater than. *)
Fixpoint insert_row (x : A) (l : list A) : list A :=
  match l with
  | [] => [x]
  | y :: l' => if le x y then x :: l else y :: insert_row x l'
  end.

(** A stable sort, as [DataFrame.sort_values] on several columns and
    Python's [sorted] are. *)
Fixpoint stable_sort (l : list A) : list A :=
  match l with
  | [] => []
  | x :: l' => insert_row x (stable_sort l')
  end.
End stable_sort.

(** Row order of [sort_values(["event_id_cnty", "timestamp"])], on the
    [timestamp] cells as the column stores them. *)
Definition le_id_timestamp (a b : Event) : bool :=
  match String.compare (event_id_cnty a) (event_id_cnty b) with
  | Lt => true
  | Eq => timestamp a <=? timestamp b
  | Gt => false
  end.

(** Row order of [sort_values(["event_date", "event_id_cnty"])]. *)
Definition le_date_id (a b : Event) : bool :=
  match event_date a ?= event_date b with
  | Lt => true
  | Eq => String.leb (event_id_cnty a) (event_id_cnty b)
  | Gt => false
  end.

Definition same_id (a b : Event) : bool :=
  String.eqb (event_id_cnty a) (event_id_cnty b).

(** [drop_duplicates(["event_id_cnty"], keep="last")]: a row stays when no
    later row has its identifier. *)
Fixpoint drop_duplicates_last (l : DataFrame) : DataFrame :=
  match l with
  | [] => []
  | x :: l' =>
      if existsb (same_id x) l' then drop_duplicates_last l'
      else x :: drop_duplicates_last l'
  end.

(** [duplicated('event_id_cnty')]: a row is marked when an earlier row has
    its identifier; [seen] holds the identifiers of the earlier rows. *)
Fixpoint duplicated_from (seen : list string) (l : DataFrame) : list bool :=
  match l with
  | [] => []
  | x :: l' =>
      existsb (String.eqb (event_id_cnty x)) seen
        :: duplicated_from (event_id_cnty x :: seen) l'
  end.

Definition duplicated (df : DataFrame) : list bool := duplicated_from [] df.

(** [.sum()] of a boolean column. *)
Definition bool_sum (s : list bool) : nat := length (filter (λ b, b = true) s).

(** ** Merge engine *)

Definition empty_msg : string := "Cannot merge empty ACLED shards.".
Definition overlap_msg : string :=
  "ACLED shards must have overlapping dates to avoid data gaps.".

Definition is_empty (df : DataFrame) : bool :=
  match df with [] => true | _ => false end.

(** The merge of two tables whose [timestamp] columns hold their cells in
    one dtype, the cells being compared as they are stored ([astype] and
    [_concat_two_dfs_typed] below give the cast of [pd.concat] on columns of
    different dtypes). [pd.concat] appends the rows of the second table to
    those of the first; [reset_index(drop=True)] renumbers the rows, as
    their place in the list does. *)
Definition _concat_two_dfs (df1 df2 : DataFrame) : result DataFrame :=
  if is_empty df1 || is_empty df2 then Raise (RuntimeError empty_msg)
  else
    let max1 := series_max (event_date <$> df1) in
    let min2 := series_min (event_date <$> df2) in
    if date_lt max1 min2 then Raise (RuntimeError overlap_msg)
    else
      let df := df1 ++ df2 in
      let df := stable_sort le_id_timestamp df in
      let df := drop_duplicates_last df in
      let df := stable_sort le_date_id df in
      Ok df.

(** The fold of [concat]: [debug] is Python's [__debug__], under which the
    [assert] statement is executed. *)
Fixpoint concat_loop (debug : bool) (consolidated : DataFrame)
    (dataframes : list DataFrame) : result DataFrame :=
  match dataframes with
  | [] => Ok consolidated
  | next_df :: dataframes' =>
      consolidated ← _concat_two_dfs consolidated next_df;
      if debug && negb (bool_sum (duplicated consolidated) =? 0)%nat
      then Raise AssertionError
      else concat_loop debug consolidated dataframes'
  end.

(** ** The dtype of the timestamp column *)

(** The dtypes [pd.read_csv] gives a column of numbers. *)
Inductive dtype : Type := int64 | uint64 | float64.

(** The dtype of the column [pd.concat] makes of two columns
    ([np.result_type]): two columns of different dtypes become a [float64]
    column. *)
Definition find_common_type (d1 d2 : dtype) : dtype :=
  match d1, d2 with
  | int64, int64 => int64
  | uint64, uint64 => uint64
  | _, _ => float64
  end.

(** The [float64] nearest to an integer below [2 ^ 1024] in magnitude, as
    an integer: the integer itself up to [2 ^ 53], and beyond the multiple
    of the spacing of the floats (53 significant bits) that is nearest,
    the even one of two that are as near. *)
Definition to_float64 (z : Z) : Z :=
  let a := Z.abs z in
  if a <=? 2 ^ 53 then z
  else
    let e := Z.log2 a - 52 in
    let q := a / 2 ^ e in
    let r := a mod 2 ^ e in
    let half := 2 ^ (e - 1) in
    let q' := if r <? half then q
              else if half <? r then q + 1
              else if Z.even q then q else q + 1 in
    Z.sgn z * (q' * 2 ^ e).

Definition with_timestamp (v : Z) (r : Event) : Event :=
  {| event_id_cnty := event_id_cnty r; iso := iso r; iso3 := iso3 r;
     event_date := event_date r; timestamp := v;
     _orig_fname := _orig_fname r; attributes := attributes r |}.

(** [Series.astype] on the [timestamp] cell of a row: a cast to [float64]
    rounds, a column of integers keeps its cells. *)
Definition astype (d : dtype) (r : Event) : Event :=
  match d with
  | float64 => with_timestamp (to_float64 (timestamp r)) r
  | _ => r
  end.

(** A table with the dtype of its [timestamp] column. *)
Record TypedFrame : Type := mkTyped {
  timestamp_dtype : dtype;
  frame : DataFrame
}.

(** [_concat_two_dfs] on two tables of any dtypes: [pd.concat] casts the
    two [timestamp] columns to their common dtype, and the sort and the
    removal of duplicates see the cells as cast. *)
Definition _concat_two_dfs_typed (df1 df2 : TypedFrame) : result TypedFrame :=
  let d := find_common_type (timestamp_dtype df1) (timestamp_dtype df2) in
  df ← _concat_two_dfs (astype d <$> frame df1) (astype d <$> frame df2);
  Ok {| timestamp_dtype := d; frame := df |}.

(** The fold of [concat] on tables that carry the dtype of their
    [timestamp] column. *)
Fixpoint concat_loop_typed (debug : bool) (consolidated : TypedFrame)
    (dataframes : list TypedFrame) : result TypedFrame :=
  match dataframes with
  | [] => Ok consolidated
  | next_df :: dataframes' =>
      consolidated ← _concat_two_dfs_typed consolidated next_df;
      if debug && negb (bool_sum (duplicated (frame consolidated)) =? 0)%nat
      then Raise AssertionError
      else concat_loop_typed debug consolidated dataframes'
  end.

(** ** Schema normaliser *)

Definition has_column (c : string) (df : RawFrame) : bool :=
  bool_decide (c ∈ columns df).

(** [df[c] = ...]: the column is appended when the frame lacks it, and each
    row gets its cell. *)
Definition set_column (c : string) (f : Event → Event) (df : RawFrame)
    : RawFrame :=
  {| columns := if has_column c df then columns df else columns df ++ [c];
     rows := f <$> rows df |}.

Definition with_iso3 (v : string) (r : Event) : Event :=
  {| event_id_cnty := event_id_cnty r; iso := iso r; iso3 := v;
     event_date := event_date r; timestamp := timestamp r;
     _orig_fname := _orig_fname r; attributes := attributes r |}.

Definition with_orig_fname (v : string) (r : Event) : Event :=
  {| event_id_cnty := event_id_cnty r; iso := iso r; iso3 := iso3 r;
     event_date := event_date r; timestamp := timestamp r;
     _orig_fname := v; attributes := attributes r |}.

Section normaliser.
(** The static table of [iso_map.ISO_MAP]. *)
Variable ISO_MAP : gmap Z string.

(** [set(df.iso) - set(ISO_MAP.keys())] *)
Definition unknown_codes (df : RawFrame) : gset Z :=
  list_to_set (iso <$> rows df) ∖ dom ISO_MAP.

(** [df["iso"].map(ISO_MAP)], one cell. *)
Definition map_iso (code : Z) : string := default "" (ISO_MAP !! code).

Definition add_iso3 (df : RawFrame) : result RawFrame :=
  if negb (has_column "iso3" df) then
    if negb (has_column "iso" df) then Raise (AttributeError "iso")
    else
      let unknown := unknown_codes df in
      if bool_decide (unknown ≠ ∅) then Raise (ValueError (UnmappedIso unknown))
      else Ok (set_column "iso3" (λ r, with_iso3 (map_iso (iso r)) r) df)
  else Ok df.

Definition _format_df (df : RawFrame) : result DataFrame :=
  df ← add_iso3 df;
  let missing_cols : gset string :=
    list_to_set RETAINED_COLS ∖ list_to_set (columns df) in
  if bool_decide (missing_cols ≠ ∅)
  then Raise (ValueError (MissingColumns missing_cols))
  else Ok (rows df).
End normaliser.

(** ** Shard discovery *)

Definition newline : ascii := "010"%char.
Definition nl : string := String newline EmptyString.

Fixpoint ends_with (suffix s : string) : bool :=
  String.eqb s suffix ||
  match s with
  | EmptyString => false
  | String _ s' => ends_with suffix s'
  end.

(** [Path(source_dir).glob("*.csv")] on the names of a directory. *)
Definition glob_csv (names : list string) : list string :=
  filter (λ name, ends_with ".csv" name = true) names.

Definition is_digit (c : ascii) : bool :=
  (48 <=? nat_of_ascii c)%nat && (nat_of_ascii c <=? 57)%nat.

Definition digit_value (c : ascii) : nat := nat_of_ascii c - 48.

(** The tail [.*\.csv$] of the pattern: [.] matches no newline, and [$]
    matches at the end and before a final newline. *)
Fixpoint match_tail (s : string) : bool :=
  String.eqb s ".csv" || String.eqb s (".csv" +:+ nl) ||
  match s with
  | EmptyString => false
  | String c s' => negb (Ascii.eqb c newline) && match_tail s'
  end.

Fixpoint drop_chars (n : nat) (s : string) : string :=
  match n, s with
  | S n', String _ s' => drop_chars n' s'
  | _, _ => s
  end.

(** [pattern.match(name)] for [^(\d{2})-acled.*\.csv$], giving
    [int(match.group(1))]. *)
Definition pattern_match (name : string) : option nat :=
  match name with
  | String d1 (String d2 rest) =>
      if is_digit d1 && is_digit d2 && String.prefix "-acled" rest
         && match_tail (drop_chars 6 rest)
      then Some (10 * digit_value d1 + digit_value d2)%nat
      else None
  | _ => None
  end.

Definition is_output (name : string) : bool :=
  String.prefix "consolidated_acled" name.

(** The loop over [all_csvs]: [(valid_files, invalid_files)]. *)
Fixpoint scan_csvs (all_csvs : list string)
    : list (nat * string) * list string :=
  match all_csvs with
  | [] => ([], [])
  | name :: all_csvs' =>
      let '(valid_files, invalid_files) := scan_csvs all_csvs' in
      if is_output name then (valid_files, invalid_files)
      else
        match pattern_match name with
        | Some prefix => ((prefix, name) :: valid_files, invalid_files)
        | None => (valid_files, name :: invalid_files)
        end
  end.

Definition decimal (n : nat) : string :=
  DecimalString.NilZero.string_of_uint (Nat.to_uint n).

Definition bullet (name : string) : string := "  - " +:+ name.

Definition invalid_header (n : nat) : string :=
  "Found " +:+ decimal n +:+ " invalid ACLED source file(s)." +:+ nl +:+
  "Each single CSV file in 'source_dir' (other than known output files " +:+
  "starting with 'consolidated_acled') must follow the naming pattern:" +:+ nl +:+
  "    NN-acled_<description>.csv" +:+ nl +:+
  "Examples:" +:+ nl +:+
  "  - 01-acled_2021_download.csv" +:+ nl +:+
  "  - 02-acled_2022_update.csv" +:+ nl +:+
  "  - 03-acled_2023_another_update.csv" +:+ nl +:+
  "Invalid files found:" +:+ nl.

Definition invalid_msg (invalid_files : list string) : string :=
  invalid_header (length invalid_files)
  +:+ String.concat nl (bullet <$> invalid_files).

Definition too_few_msg : string :=
  "At least two valid ACLED source files are required.".

Definition le_prefix (a b : nat * string) : bool := (a.1 <=? b.1)%nat.

Definition _get_lexically_sorted_csv_paths (names : list string)
    : result (list string) :=
  let all_csvs := glob_csv names in
  let '(valid_files, invalid_files) := scan_csvs all_csvs in
  if negb (bool_decide (invalid_files = []))
  then Raise (RuntimeError (invalid_msg invalid_files))
  else if (length valid_files <? 2)%nat
  then Raise (RuntimeError too_few_msg)
  else Ok (snd <$> stable_sort le_prefix valid_files).

(** ** Loader and driver *)

(** A source directory: the names of its entries in the order the file
    system lists them, and what [pd.read_csv] makes of each file. *)
Record Directory : Type := mkDir {
  entries : list string;
  read_csv : string → result RawFrame
}.

Section driver.
Variable ISO_MAP : gmap Z string.

Definition _load_and_format_df (source_dir : Directory) (path : string)
    : result DataFrame :=
  df ← read_csv source_dir path;
  let df := set_column "_orig_fname" (with_orig_fname path) df in
  _format_df ISO_MAP df.

(** [concat]: the table it returns, which is the table it has written to
    [consolidated_acled.csv]. *)
Definition concat (debug : bool) (source_dir : Directory)
    : result DataFrame :=
  shard_paths ← _get_lexically_sorted_csv_paths (entries source_dir);
  dataframes ← mapM (_load_and_format_df source_dir) shard_paths;
  match dataframes with
  | [] => Raise IndexError
  | first :: rest => concat_loop debug first rest
  end.

(** The loader and [concat] with the dtypes: [read_dtype] is the dtype
    [pd.read_csv] gives the [timestamp] column of each file. *)
Definition _load_and_format_df_typed (source_dir : Directory)
    (read_dtype : string → dtype) (path : string) : result TypedFrame :=
  df ← _load_and_format_df source_dir path;
  Ok {| timestamp_dtype := read_dtype path; frame := df |}.

Definition concat_typed (debug : bool) (source_dir : Directory)
    (read_dtype : string → dtype) : result TypedFrame :=
  shard_paths ← _get_lexically_sorted_csv_paths (entries source_dir);
  dataframes ← mapM (_load_and_format_df_typed source_dir read_dtype)
                    shard_paths;
  match dataframes with
  | [] => Raise IndexError
  | first :: rest => concat_loop_typed debug first rest
  end.
End driver.

(** ** Vocabulary of the properties *)

(** The identifiers of a table, in row order. *)
Definition ids (df : DataFrame) : list string := event_id_cnty <$> df.

(** [m] is the greatest (least) value of a column. *)
Definition is_maximum (m : Z) (s : list Z) : Prop := m ∈ s ∧ ∀ y, y ∈ s → y ≤ m.
Definition is_minimum (m : Z) (s : list Z) : Prop := m ∈ s ∧ ∀ y, y ∈ s → m ≤ y.

Global Instance is_maximum_dec m s : Decision (is_maximum m s).
Proof.
  refine (cast_if (decide (m ∈ s ∧ Forall (λ y, y ≤ m) s)));
    unfold is_maximum; rewrite Forall_forall in *; done.
Defined.

Global Instance is_minimum_dec m s : Decision (is_minimum m s).
Proof.
  refine (cast_if (decide (m ∈ s ∧ Forall (λ y, m ≤ y) s)));
    unfold is_minimum; rewrite Forall_forall in *; done.
Defined.

(** The table [_concat_two_dfs] returns once its two checks have passed. *)
Definition merged (df1 df2 : DataFrame) : DataFrame :=
  stable_sort le_date_id
    (drop_duplicates_last (stable_sort le_id_timestamp (df1 ++ df2))).

(** Ascending order on the pair [(event_date, event_id_cnty)]. *)
Definition date_id_le (a b : Event) : Prop :=
  event_date a < event_date b ∨
  (event_date a = event_date b ∧
   String.compare (event_id_cnty a) (event_id_cnty b) ≠ Gt).

(** A name that [glob] lists, that is no output file and that the pattern
    does not match. *)
Definition is_invalid_name (name : string) : Prop :=
  ends_with ".csv" name = true ∧ is_output name = false ∧
  pattern_match name = None.

Global Instance is_invalid_name_dec name : Decision (is_invalid_name name).
Proof. unfold is_invalid_name. apply _. Defined.

(** A name that [glob] lists and that is no output file. *)
Definition is_candidate (name : string) : Prop :=
  ends_with ".csv" name = true ∧ is_output name = false.

Global Instance is_candidate_dec name : Decision (is_candidate name).
Proof. unfold is_candidate. apply _. Defined.

(** The entry of [valid_files] a name makes. *)
Definition shard_entry (name : string) : option (nat * string) :=
  if is_output name then None else (λ k, (k, name)) <$> pattern_match name.

(** [code] is a cell of the [iso] column of the table. *)
Definition is_data_code (df : RawFrame) (code : Z) : Prop :=
  "iso" ∈ columns df ∧ code ∈ iso <$> rows df.

Global Instance is_data_code_dec df code : Decision (is_data_code df code).
Proof. unfold is_data_code. apply _. Defined.

(** [s] has no newline, so [.*] can match it. *)
Fixpoint no_newline (s : string) : bool :=
  match s with
  | EmptyString => true
  | String c s' => negb (Ascii.eqb c newline) && no_newline s'
  end.

(** [s] occurs in [msg]. *)
Definition contains (msg s : string) : Prop :=
  ∃ pre post, msg = pre +:+ s +:+ post.

(** One of the ten characters [\d] matches. *)
Definition is_decimal_digit (c : ascii) : Prop :=
  c ∈ [ "0"; "1"; "2"; "3"; "4"; "5"; "6"; "7"; "8"; "9" ]%char.

(** A name [glob("*.csv")] lists. *)
Definition is_csv_name (name : string) : Prop := ∃ stem, name = stem +:+ ".csv".

(** A name that begins with the prefix of the output files. *)
Definition is_output_name (name : string) : Prop :=
  ∃ rest, name = "consolidated_acled" +:+ rest.

(** A name of the form [NN-acled...csv]. *)
Definition is_shard_name (name : string) : Prop :=
  ∃ d1 d2 x,
    is_decimal_digit d1 ∧ is_decimal_digit d2 ∧ no_newline x = true ∧
    (name = String d1 (String d2 ("-acled" +:+ x +:+ ".csv")) ∨
     name = String d1 (String d2 ("-acled" +:+ x +:+ ".csv" +:+ nl))).

(** A [.csv] name that is no output file and has not the form of a shard
    name. *)
Definition is_bad_name (name : string) : Prop :=
  is_csv_name name ∧ ¬ is_output_name name ∧ ¬ is_shard_name name.

(** ** The fixtures of the test suite *)

(** Dates are written as the integer [yyyymmdd], which keeps their order. *)
Definition TEST_ISO_MAP : gmap Z string := {[ 123 := "ABC"; 456 := "XYZ" ]}.

(** The columns of a file that has neither [iso3] nor [_orig_fname]. *)
Definition mock_columns : list string :=
  filter (λ c, c ≠ "iso3" ∧ c ≠ "_orig_fname") RETAINED_COLS.

Definition mock_row (id : string) (date ts code : Z) : Event :=
  {| event_id_cnty := id; iso := code; iso3 := ""; event_date := date;
     timestamp := ts; _orig_fname := ""; attributes := [] |}.

Definition mock_shard1 : RawFrame :=
  {| columns := mock_columns;
     rows := [ mock_row "ABC01" 20200101 1 123;
               mock_row "ABC02" 20201231 1 123;
               mock_row "XYZ01" 20201231 1 456 ] |}.

(** The first file once the loader has added its provenance column. *)
Definition mock_loaded1 : RawFrame :=
  set_column "_orig_fname" (with_orig_fname "01-acled_mock.csv") mock_shard1.

Definition mock_shard2 : RawFrame :=
  {| columns := mock_columns;
     rows := [ mock_row "ABC02" 20201231 9 123;
               mock_row "ABC03" 20210201 9 123;
               mock_row "XYZ01" 20201231 9 456;
               mock_row "XYZ02" 20210201 9 456 ] |}.

Definition mock_shard3 : RawFrame :=
  {| columns := mock_columns;
     rows := [ mock_row "ABC99" 20991231 20991231 123 ] |}.

(** A shard with a code that the table does not have. *)
Definition mock_unmapped : RawFrame :=
  {| columns := mock_columns;
     rows := [ mock_row "ABC01" 20200101 1 123;
               mock_row "QQQ01" 20200102 1 999;
               mock_row "QQQ02" 20200103 1 998 ] |}.

(** A shard of a recent export: it has [iso3], and a code unknown to the
    table. *)
Definition mock_recent : RawFrame :=
  {| columns := RETAINED_COLS;
     rows := [ {| event_id_cnty := "QQQ01"; iso := 999; iso3 := "QQQ";
                  event_date := 20200102; timestamp := 1;
                  _orig_fname := "09-acled_recent.csv"; attributes := [] |} ] |}.

Definition mock_dir : Directory :=
  {| entries := [ "02-acled_mock.csv"; "notes.txt"; "consolidated_acled.csv";
                  "01-acled_mock.csv" ];
     read_csv := λ path,
       if decide (path = "01-acled_mock.csv") then Ok mock_shard1
       else if decide (path = "02-acled_mock.csv") then Ok mock_shard2
       else Raise (OSError "No such file or directory") |}.

Definition loaded (fname : string) (id : string) (date ts code : Z)
    (code3 : string) : Event :=
  {| event_id_cnty := id; iso := code; iso3 := code3; event_date := date;
     timestamp := ts; _orig_fname := fname; attributes := [] |}.

Definition shard1 : DataFrame :=
  [ loaded "01-acled_mock.csv" "ABC01" 20200101 1 123 "ABC";
    loaded "01-acled_mock.csv" "ABC02" 20201231 1 123 "ABC";
    loaded "01-acled_mock.csv" "XYZ01" 20201231 1 456 "XYZ" ].

Definition shard2 : DataFrame :=
  [ loaded "02-acled_mock.csv" "ABC02" 20201231 9 123 "ABC";
    loaded "02-acled_mock.csv" "ABC03" 20210201 9 123 "ABC";
    loaded "02-acled_mock.csv" "XYZ01" 20201231 9 456 "XYZ";
    loaded "02-acled_mock.csv" "XYZ02" 20210201 9 456 "XYZ" ].

Definition shard3 : DataFrame :=
  [ loaded "03-acled_mock.csv" "ABC99" 20991231 20991231 123 "ABC" ].

(** A shard in which an identifier occurs twice. *)
Definition shard_repeat : DataFrame :=
  [ loaded "04-acled_mock.csv" "ABC03" 20210201 12 123 "ABC";
    loaded "04-acled_mock.csv" "ABC03" 20210203 11 123 "ABC";
    loaded "04-acled_mock.csv" "XYZ02" 20210201 3 456 "XYZ" ].

Definition consolidated12 : DataFrame :=
  [ loaded "01-acled_mock.csv" "ABC01" 20200101 1 123 "ABC";
    loaded "02-acled_mock.csv" "ABC02" 20201231 9 123 "ABC";
    loaded "02-acled_mock.csv" "XYZ01" 20201231 9 456 "XYZ";
    loaded "02-acled_mock.csv" "ABC03" 20210201 9 123 "ABC";
    loaded "02-acled_mock.csv" "XYZ02" 20210201 9 456 "XYZ" ].

(** The numeric prefixes of the candidate names, in listing order. *)
Definition prefixes (names : list string) : list nat :=
  omap pattern_match (filter is_candidate names).

(** Two rows are versions with the same identifier and edit time. *)
Definition is_tie (a b : Event) : Prop :=
  event_id_cnty a = event_id_cnty b ∧ timestamp a = timestamp b.

Global Instance is_tie_dec a b : Decision (is_tie a b).
Proof. unfold is_tie. apply _. Defined.



Definition tie_names : list string :=
  [ "02-acled_b.csv"; "01-acled_z.csv"; "readme.md"; "02-acled_a.csv" ].

(** The retained columns a file lacks, [iso3] apart. *)
Definition missing_columns (df : RawFrame) : gset string :=
  list_to_set RETAINED_COLS ∖ list_to_set (columns df) ∖ {[ "iso3" ]}.

(** The country codes of a file can be normalised: it has [iso3], or it
    has [iso] and the table maps every code of the data. *)
Definition codes_ok (ISO_MAP : gmap Z string) (df : RawFrame) : Prop :=
  "iso3" ∈ columns df ∨
  ("iso" ∈ columns df ∧ unknown_codes ISO_MAP df = ∅).

(** A file that lacks [year] and [notes], and has an [_orig_fname] column
    of its own. *)
Definition mock_incomplete : RawFrame :=
  {| columns := filter (λ c, c ≠ "year" ∧ c ≠ "notes") RETAINED_COLS;
     rows := [ {| event_id_cnty := "ABC01"; iso := 123; iso3 := "ABC";
                  event_date := 20200101; timestamp := 1;
                  _orig_fname := "elsewhere.csv"; attributes := [] |} ] |}.

(** A file without country codes. *)
Definition mock_no_codes : RawFrame :=
  {| columns := filter (λ c, c ≠ "iso" ∧ c ≠ "iso3") RETAINED_COLS;
     rows := [ mock_row "ABC01" 20200101 1 0 ] |}.


(** A directory whose second shard begins after the end of the first. *)
Definition mock_dir_gap : Directory :=
  {| entries := [ "01-acled_mock.csv"; "03-acled_mock.csv" ];
     read_csv := λ path,
       if decide (path = "01-acled_mock.csv") then Ok mock_shard1
       else if decide (path = "03-acled_mock.csv") then Ok mock_shard3
       else Raise (OSError "No such file or directory") |}.

(** The directory of the fixtures after a run, listed in another order:
    the output file holds a table. *)
Definition mock_dir_rerun : Directory :=
  {| entries := [ "consolidated_acled.csv"; "02-acled_mock.csv";
                  "01-acled_mock.csv" ];
     read_csv := λ path,
       if decide (path = "consolidated_acled.csv") then Ok mock_recent
       else read_csv mock_dir path |}.

(** A directory with a file that has an [_orig_fname] column. *)
Definition mock_dir_recent : Directory :=
  {| entries := [ "03-acled_recent.csv" ];
     read_csv := λ _, Ok mock_recent |}.

(** A cell that a column of the dtype holds as it is. *)
Definition representable (d : dtype) (z : Z) : Prop :=
  match d with
  | float64 => to_float64 z = z
  | _ => True
  end.

Global Instance representable_dec d z : Decision (representable d z).
Proof. destruct d; cbn; apply _. Defined.

(** [pd.concat] changes no [timestamp] of the two tables: every cell is
    representable in the common dtype of the two columns. *)
Definition stored_exactly (df1 df2 : TypedFrame) : Prop :=
  Forall (λ r, representable
                 (find_common_type (timestamp_dtype df1) (timestamp_dtype df2))
                 (timestamp r))
         (frame df1 ++ frame df2).

Global Instance stored_exactly_dec df1 df2 : Decision (stored_exactly df1 df2).
Proof. unfold stored_exactly. apply _. Defined.


(** The greatest magnitude up to which every integer is a [float64]. *)
Definition float64_exact : Z := 2 ^ 53.

(** Every edit time of the table is at most [2 ^ 53] in magnitude:
    [int64], [uint64] and [float64] columns all hold it as it is. *)
Definition small_timestamps (df : DataFrame) : Prop :=
  Forall (λ r, - float64_exact ≤ timestamp r ≤ float64_exact) df.

Global Instance small_timestamps_dec df : Decision (small_timestamps df).
Proof. unfold small_timestamps. apply _. Defined.

(** So it is in every candidate file of a directory, as loaded. *)
Definition timestamps_exact (ISO_MAP : gmap Z string) (source_dir : Directory)
    : Prop :=
  Forall (λ path,
            match _load_and_format_df ISO_MAP source_dir path with
            | Ok shard => small_timestamps shard
            | Raise _ => True
            end)
         (filter is_candidate (entries source_dir)).

Global Instance timestamps_exact_dec ISO_MAP source_dir :
  Decision (timestamps_exact ISO_MAP source_dir).
Proof.
  unfold timestamps_exact. apply Forall_dec. intros path.
  destruct (_load_and_format_df ISO_MAP source_dir path); apply _.
Defined.

(** The dtypes of the test files: the second is read as floats. *)
Definition mock_dtypes (path : string) : dtype :=
  if decide (path = "02-acled_mock.csv") then float64 else int64.

(** Two files with edit times beyond [2 ^ 53], the first read as [uint64]
    and the second as [int64]. *)
Definition big_row (id : string) (date ts code : Z) : Event :=
  {| event_id_cnty := id; iso := code; iso3 := ""; event_date := date;
     timestamp := ts; _orig_fname := ""; attributes := [] |}.

Definition big_dir : Directory :=
  {| entries := [ "01-acled_big.csv"; "02-acled_big.csv" ];
     read_csv := λ path,
       if decide (path = "01-acled_big.csv")
       then Ok {| columns := mock_columns;
                  rows := [ big_row "E1" 20200101 (2 ^ 63) 123 ] |}
       else Ok {| columns := mock_columns;
                  rows := [ big_row "E1" 20200101 (2 ^ 63 - 1) 123 ] |} |}.

Definition big_dtypes (path : string) : dtype :=
  if decide (path = "01-acled_big.csv") then uint64 else int64.





(** The shards of the test suite, the second with its edit times read as
    floats. *)
Definition typed1 : TypedFrame :=
  {| timestamp_dtype := int64; frame := shard1 |}.
Definition typed2 : TypedFrame :=
  {| timestamp_dtype := float64; frame := shard2 |}.

(** * Properties *)


(** ** The stable sort *)

Section stable_sort_facts.
Context {A : Type} (le : A → A → bool).
Hypothesis le_total : ∀ a b, le a b = true ∨ le b a = true.
Hypothesis le_trans : ∀ a b c, le a b = true → le b c = true → le a c = true.

Let R (a b : A) : Prop := le a b = true.

Lemma insert_row_Permutation x l : insert_row le x l ≡ₚ x :: l.
Proof.
  induction l as [|y l IH]; simpl; [done|].
  destruct (le x y); [done|].
  rewrite IH. apply Permutation_swap.
Qed.

Lemma stable_sort_Permutation l : stable_sort le l ≡ₚ l.
Proof.
  induction l as [|x l IH]; simpl; [done|].
  by rewrite insert_row_Permutation, IH.
Qed.

Lemma insert_row_sorted x l :
  StronglySorted R l → StronglySorted R (insert_row le x l).
Proof.
  induction 1 as [|y l Hl IH Hy]; simpl.
  - repeat constructor.
  - destruct (le x y) eqn:Hxy.
    + constructor; [by constructor|].
      constructor; [done|].
      eapply Forall_impl; [exact Hy|]. intros z Hz. by eapply le_trans.
    + constructor; [done|].
      rewrite insert_row_Permutation. constructor; [|done].
      destruct (le_total x y) as [H|H]; [congruence|done].
Qed.

Lemma stable_sort_sorted l : StronglySorted R (stable_sort le l).
Proof.
  induction l as [|x l IH]; simpl; [constructor|].
  by apply insert_row_sorted.
Qed.

Lemma elem_of_stable_sort x l : x ∈ stable_sort le l ↔ x ∈ l.
Proof. by rewrite stable_sort_Permutation. Qed.
End stable_sort_facts.

(** ** The order of strings *)

Lemma ascii_compare_lt_trans a b c :
  Ascii.compare a b = Lt → Ascii.compare b c = Lt → Ascii.compare a c = Lt.
Proof.
  unfold Ascii.compare. rewrite !N.compare_lt_iff. lia.
Qed.

Lemma ascii_compare_refl a : Ascii.compare a a = Eq.
Proof. apply N.compare_refl. Qed.

Lemma string_compare_refl s : String.compare s s = Eq.
Proof.
  induction s as [|a s IH]; simpl; [done|]. by rewrite ascii_compare_refl.
Qed.

Lemma string_compare_lt_trans s1 s2 s3 :
  String.compare s1 s2 = Lt → String.compare s2 s3 = Lt →
  String.compare s1 s3 = Lt.
Proof.
  revert s2 s3. induction s1 as [|a s1 IH]; intros [|b s2] [|c s3]; simpl;
    try done.
  destruct (Ascii.compare a b) eqn:Hab; [|clear IH|done];
    destruct (Ascii.compare b c) eqn:Hbc; try done.
  - apply Ascii.compare_eq_iff in Hab, Hbc. subst.
    rewrite ascii_compare_refl. apply IH.
  - apply Ascii.compare_eq_iff in Hab. subst. by rewrite Hbc.
  - apply Ascii.compare_eq_iff in Hbc. subst. by rewrite Hab.
  - by rewrite (ascii_compare_lt_trans _ _ _ Hab Hbc).
Qed.

Lemma string_compare_gt_lt s1 s2 :
  String.compare s1 s2 = Gt ↔ String.compare s2 s1 = Lt.
Proof.
  rewrite (String.compare_antisym s2 s1).
  destruct (String.compare s1 s2); simpl; split; congruence.
Qed.

(** [String.compare] is a three-way comparison of a total order. *)
Lemma string_compare_cases s1 s2 :
  (String.compare s1 s2 = Lt ∧ String.compare s2 s1 = Gt) ∨
  (String.compare s1 s2 = Eq ∧ s1 = s2) ∨
  (String.compare s1 s2 = Gt ∧ String.compare s2 s1 = Lt).
Proof.
  destruct (String.compare s1 s2) eqn:H.
  - right; left. split; [done|]. by apply String.compare_eq_iff.
  - left. split; [done|]. by apply string_compare_gt_lt.
  - right; right. split; [done|]. by apply string_compare_gt_lt.
Qed.

Lemma le_id_timestamp_total a b :
  le_id_timestamp a b = true ∨ le_id_timestamp b a = true.
Proof.
  unfold le_id_timestamp.
  destruct (string_compare_cases (event_id_cnty a) (event_id_cnty b))
    as [[-> ->]|[[-> E]|[-> ->]]]; auto.
  rewrite <- E, string_compare_refl.
  destruct (Z.leb_spec (timestamp a) (timestamp b)); [by left|right].
  apply Z.leb_le. lia.
Qed.

Lemma le_id_timestamp_trans a b c :
  le_id_timestamp a b = true → le_id_timestamp b c = true →
  le_id_timestamp a c = true.
Proof.
  unfold le_id_timestamp.
  destruct (string_compare_cases (event_id_cnty a) (event_id_cnty b))
    as [[Hab _]|[[Hab E]|[Hab _]]]; rewrite Hab; try done.
  - destruct (string_compare_cases (event_id_cnty b) (event_id_cnty c))
      as [[Hbc _]|[[Hbc E]|[Hbc _]]]; rewrite Hbc; try done.
    + by rewrite (string_compare_lt_trans _ _ _ Hab Hbc).
    + by rewrite <- E, Hab.
  - rewrite E.
    destruct (String.compare (event_id_cnty b) (event_id_cnty c)); try done.
    intros H1%Z.leb_le H2%Z.leb_le. apply Z.leb_le. lia.
Qed.

Lemma le_date_id_total a b : le_date_id a b = true ∨ le_date_id b a = true.
Proof.
  unfold le_date_id. rewrite (Z.compare_antisym (event_date a)).
  destruct (event_date a ?= event_date b); simpl; auto.
  apply String.leb_total.
Qed.

Lemma string_leb_trans s1 s2 s3 :
  String.leb s1 s2 = true → String.leb s2 s3 = true → String.leb s1 s3 = true.
Proof.
  unfold String.leb.
  destruct (string_compare_cases s1 s2) as [[H12 _]|[[H12 E]|[H12 _]]];
    rewrite H12; try done.
  - destruct (string_compare_cases s2 s3) as [[H23 _]|[[H23 E]|[H23 _]]];
      rewrite H23; try done.
    + by rewrite (string_compare_lt_trans _ _ _ H12 H23).
    + by rewrite <- E, H12.
  - by rewrite E.
Qed.

Lemma le_date_id_trans a b c :
  le_date_id a b = true → le_date_id b c = true → le_date_id a c = true.
Proof.
  unfold le_date_id.
  destruct (Z.compare_spec (event_date a) (event_date b)) as [E|L|G];
    try done.
  - rewrite E. destruct (event_date b ?= event_date c); try done.
    apply string_leb_trans.
  - intros _. destruct (Z.compare_spec (event_date b) (event_date c))
      as [E'|L'|G']; try done; intros _.
    + rewrite <- E'. by rewrite (proj2 (Z.compare_lt_iff _ _) L).
    + assert (event_date a < event_date c) as Hac by lia.
      by rewrite (proj2 (Z.compare_lt_iff _ _) Hac).
Qed.

(** ** Column extrema *)

Lemma fold_left_max_spec l x :
  let m := fold_left Z.max l x in
  (m = x ∨ m ∈ l) ∧ x ≤ m ∧ ∀ y, y ∈ l → y ≤ m.
Proof.
  revert x. induction l as [|a l IH]; intros x; simpl.
  - split; [by left|]. split; [lia|]. intros y Hy. by apply elem_of_nil in Hy.
  - destruct (IH (Z.max x a)) as (Hin & Hle & Hall).
    split; [|split].
    + destruct Hin as [->|Hin]; [|right; by right].
      destruct (Z.max_spec x a) as [[_ ->]|[_ ->]]; [right; by left|by left].
    + lia.
    + intros y [->|Hy]%elem_of_cons; [lia|by apply Hall].
Qed.

Lemma fold_left_min_spec l x :
  let m := fold_left Z.min l x in
  (m = x ∨ m ∈ l) ∧ m ≤ x ∧ ∀ y, y ∈ l → m ≤ y.
Proof.
  revert x. induction l as [|a l IH]; intros x; simpl.
  - split; [by left|]. split; [lia|]. intros y Hy. by apply elem_of_nil in Hy.
  - destruct (IH (Z.min x a)) as (Hin & Hle & Hall).
    split; [|split].
    + destruct Hin as [->|Hin]; [|right; by right].
      destruct (Z.min_spec x a) as [[_ ->]|[_ ->]]; [by left|right; by left].
    + lia.
    + intros y [->|Hy]%elem_of_cons; [lia|by apply Hall].
Qed.

Lemma series_max_spec s : s ≠ [] → ∃ m, series_max s = Some m ∧ is_maximum m s.
Proof.
  destruct s as [|x s]; [done|]. intros _. eexists. split; [done|].
  destruct (fold_left_max_spec s x) as (Hin & Hle & Hall). split.
  - destruct Hin as [->|Hin]; [by left|by right].
  - intros y [->|Hy]%elem_of_cons; auto.
Qed.

Lemma series_min_spec s : s ≠ [] → ∃ m, series_min s = Some m ∧ is_minimum m s.
Proof.
  destruct s as [|x s]; [done|]. intros _. eexists. split; [done|].
  destruct (fold_left_min_spec s x) as (Hin & Hle & Hall). split.
  - destruct Hin as [->|Hin]; [by left|by right].
  - intros y [->|Hy]%elem_of_cons; auto.
Qed.

Lemma is_maximum_unique m m' s : is_maximum m s → is_maximum m' s → m = m'.
Proof. intros [H1 H2] [H3 H4]. apply H4 in H1. apply H2 in H3. lia. Qed.

Lemma is_minimum_unique m m' s : is_minimum m s → is_minimum m' s → m = m'.
Proof. intros [H1 H2] [H3 H4]. apply H4 in H1. apply H2 in H3. lia. Qed.

(** ** Deduplication *)

Lemma same_id_true a b : same_id a b = true ↔ event_id_cnty a = event_id_cnty b.
Proof. unfold same_id. apply String.eqb_eq. Qed.

Lemma existsb_same_id x l :
  existsb (same_id x) l = true ↔ event_id_cnty x ∈ ids l.
Proof.
  rewrite existsb_exists. unfold ids. rewrite list_elem_of_fmap. split.
  - intros (y & Hy & E). exists y. split; [by apply same_id_true|].
    by apply list_elem_of_In.
  - intros (y & E & Hy). exists y. split; [by apply list_elem_of_In|].
    by apply same_id_true.
Qed.

Lemma elem_of_drop_duplicates_last x l : x ∈ drop_duplicates_last l → x ∈ l.
Proof.
  induction l as [|a l IH]; simpl; [done|].
  destruct (existsb (same_id a) l).
  - intros H. right. by apply IH.
  - intros [->|H]%elem_of_cons; [by left|right; by apply IH].
Qed.

Lemma ids_drop_duplicates_last i l :
  i ∈ ids (drop_duplicates_last l) ↔ i ∈ ids l.
Proof.
  induction l as [|a l IH]; cbn [drop_duplicates_last]; [done|].
  destruct (existsb (same_id a) l) eqn:E.
  - rewrite IH. apply existsb_same_id in E. unfold ids in *.
    rewrite fmap_cons, elem_of_cons. split; [by right|by intros [->|?]].
  - unfold ids in *. rewrite !fmap_cons, !elem_of_cons. by rewrite IH.
Qed.

Lemma drop_duplicates_last_NoDup l : NoDup (ids (drop_duplicates_last l)).
Proof.
  induction l as [|a l IH]; cbn [drop_duplicates_last]; [constructor|].
  destruct (existsb (same_id a) l) eqn:E; [done|].
  unfold ids. rewrite fmap_cons. constructor; [|done].
  fold (ids (drop_duplicates_last l)). rewrite ids_drop_duplicates_last.
  intros H%existsb_same_id. congruence.
Qed.

(** In a table sorted on [(event_id_cnty, timestamp)], the row kept for an
    identifier has the greatest [timestamp] of its rows. *)
Lemma drop_duplicates_last_max l x y :
  StronglySorted (λ a b, le_id_timestamp a b = true) l →
  y ∈ drop_duplicates_last l → x ∈ l →
  event_id_cnty x = event_id_cnty y → timestamp x ≤ timestamp y.
Proof.
  assert (∀ a b, le_id_timestamp a b = true →
            event_id_cnty a = event_id_cnty b → timestamp a ≤ timestamp b)
    as Hle.
  { intros a b. unfold le_id_timestamp. intros H E. rewrite E in H.
    rewrite string_compare_refl in H. by apply Z.leb_le. }
  induction 1 as [|a l Hl IH Ha]; simpl; [by intros ?%elem_of_nil|].
  rewrite Forall_forall in Ha.
  destruct (existsb (same_id a) l) eqn:E.
  - intros Hy [->|Hx]%elem_of_cons Hid; [|by apply IH].
    apply Hle; [|done]. by apply Ha, elem_of_drop_duplicates_last.
  - intros [->|Hy]%elem_of_cons [->|Hx]%elem_of_cons Hid.
    + lia.
    + exfalso. assert (existsb (same_id a) l = true); [|congruence].
      apply existsb_same_id. rewrite <- Hid. unfold ids.
      by apply list_elem_of_fmap_2.
    + apply Hle; [|done]. by apply Ha, elem_of_drop_duplicates_last.
    + by apply IH.
Qed.

Lemma filter_none {A} (P : A → Prop) `{!∀ x, Decision (P x)} (l : list A) :
  (∀ x, x ∈ l → ¬ P x) → filter P l = [].
Proof.
  induction l as [|a l IH]; intros Hl; [done|].
  rewrite filter_cons_False; [|apply Hl; by left].
  apply IH. intros x Hx. apply Hl. by right.
Qed.

(** With unique identifiers, the rows of an identifier are one row. *)
Lemma filter_id_singleton (df : DataFrame) (r : Event) :
  NoDup (ids df) → r ∈ df →
  filter (λ x, event_id_cnty x = event_id_cnty r) df = [r].
Proof.
  unfold ids. induction df as [|a df IH]; [by intros _ ?%elem_of_nil|].
  rewrite fmap_cons, NoDup_cons. intros [Ha Hdf] [->|Hr]%elem_of_cons.
  - rewrite filter_cons_True by done. f_equal.
    apply filter_none. intros x Hx E.
    apply Ha. rewrite <- E. by apply list_elem_of_fmap_2.
  - rewrite filter_cons_False; [by apply IH|].
    intros E. apply Ha. rewrite E. by apply list_elem_of_fmap_2.
Qed.

Lemma duplicated_from_sum seen l :
  bool_sum (duplicated_from seen l) = 0%nat ↔
  NoDup (ids l) ∧ ∀ i, i ∈ ids l → i ∉ seen.
Proof.
  revert seen. unfold bool_sum, ids.
  induction l as [|x l IH]; intros seen; simpl.
  - split; [|done]. intros _. split; [constructor|]. by intros i ?%elem_of_nil.
  - destruct (existsb (String.eqb (event_id_cnty x)) seen) eqn:E.
    + rewrite filter_cons_True by done. simpl. split; [done|].
      intros [_ H]. exfalso. apply (H (event_id_cnty x)); [by left|].
      apply existsb_exists in E as (i & Hi & ->%String.eqb_eq).
      by apply list_elem_of_In.
    + rewrite filter_cons_False by done. rewrite IH, NoDup_cons.
      assert (event_id_cnty x ∉ seen) as Hx.
      { intros Hx. assert (existsb (String.eqb (event_id_cnty x)) seen = true);
          [|congruence].
        apply existsb_exists. exists (event_id_cnty x).
        split; [by apply list_elem_of_In|apply String.eqb_refl]. }
      split.
      * intros [Hnd Hs]. split; [split; [|done]|].
        -- intros Hin. apply (Hs _ Hin). by left.
        -- intros i [->|Hi]%elem_of_cons; [done|].
           intros Hin. apply (Hs _ Hi). by right.
      * intros [[Hx' Hnd] Hs]. split; [done|].
        intros i Hi [->|Hin]%elem_of_cons; [done|].
        apply (Hs i); [by right|done].
Qed.

Lemma duplicated_sum_NoDup df :
  bool_sum (duplicated df) = 0%nat ↔ NoDup (ids df).
Proof.
  unfold duplicated. rewrite duplicated_from_sum. split; [by intros []|].
  intros H. split; [done|]. intros i _. apply not_elem_of_nil.
Qed.

(** ** The merge of two tables *)

Lemma le_date_id_spec a b : le_date_id a b = true ↔ date_id_le a b.
Proof.
  unfold le_date_id, date_id_le, String.leb.
  destruct (Z.compare_spec (event_date a) (event_date b)) as [E|L|G].
  - destruct (String.compare _ _); split; try done; try (by right);
      intros [?|[_ ?]]; try done; lia.
  - split; [by left|done].
  - split; [done|]. intros [?|[? _]]; lia.
Qed.

Lemma concat_two_dfs_inv df1 df2 df :
  _concat_two_dfs df1 df2 = Ok df →
  df1 ≠ [] ∧ df2 ≠ [] ∧ df = merged df1 df2.
Proof.
  unfold _concat_two_dfs.
  destruct df1 as [|a df1]; [done|]. destruct df2 as [|b df2]; [done|].
  cbn [is_empty orb].
  destruct (date_lt _ _); [done|]. by intros [= <-].
Qed.

Lemma date_lt_spec s1 s2 max1 min2 :
  is_maximum max1 s1 → is_minimum min2 s2 →
  date_lt (series_max s1) (series_min s2) = true ↔ max1 < min2.
Proof.
  intros Hmax Hmin.
  destruct (series_max_spec s1) as (m1 & -> & Hm1).
  { intros ->. destruct Hmax as [?%elem_of_nil _]. done. }
  destruct (series_min_spec s2) as (m2 & -> & Hm2).
  { intros ->. destruct Hmin as [?%elem_of_nil _]. done. }
  rewrite (is_maximum_unique _ _ _ Hmax Hm1), (is_minimum_unique _ _ _ Hmin Hm2).
  apply Z.ltb_lt.
Qed.

Lemma is_maximum_nonempty {A} (f : A → Z) m (l : list A) :
  is_maximum m (f <$> l) → l ≠ [].
Proof. intros [H _] ->. by apply elem_of_nil in H. Qed.

Lemma is_minimum_nonempty {A} (f : A → Z) m (l : list A) :
  is_minimum m (f <$> l) → l ≠ [].
Proof. intros [H _] ->. by apply elem_of_nil in H. Qed.

Lemma concat_two_dfs_overlap df1 df2 max1 min2 :
  is_maximum max1 (event_date <$> df1) →
  is_minimum min2 (event_date <$> df2) →
  min2 ≤ max1 →
  _concat_two_dfs df1 df2 = Ok (merged df1 df2).
Proof.
  intros Hmax Hmin Hle. unfold _concat_two_dfs.
  pose proof (is_maximum_nonempty _ _ _ Hmax) as H1.
  pose proof (is_minimum_nonempty _ _ _ Hmin) as H2.
  destruct df1 as [|a df1]; [done|]. destruct df2 as [|b df2]; [done|].
  cbn [is_empty orb].
  destruct (date_lt _ _) eqn:E; [|done].
  apply (date_lt_spec _ _ _ _ Hmax Hmin) in E. lia.
Qed.

Lemma concat_two_dfs_gap df1 df2 max1 min2 :
  is_maximum max1 (event_date <$> df1) →
  is_minimum min2 (event_date <$> df2) →
  max1 < min2 →
  _concat_two_dfs df1 df2 = Raise (RuntimeError overlap_msg).
Proof.
  intros Hmax Hmin Hlt. unfold _concat_two_dfs.
  pose proof (is_maximum_nonempty _ _ _ Hmax) as H1.
  pose proof (is_minimum_nonempty _ _ _ Hmin) as H2.
  destruct df1 as [|a df1]; [done|]. destruct df2 as [|b df2]; [done|].
  cbn [is_empty orb].
  by rewrite (proj2 (date_lt_spec _ _ _ _ Hmax Hmin) Hlt).
Qed.

Lemma elem_of_merged x df1 df2 : x ∈ merged df1 df2 → x ∈ df1 ++ df2.
Proof.
  unfold merged. rewrite elem_of_stable_sort.
  intros H%elem_of_drop_duplicates_last. by apply elem_of_stable_sort in H.
Qed.

Lemma ids_Permutation (l1 l2 : DataFrame) : l1 ≡ₚ l2 → ids l1 ≡ₚ ids l2.
Proof. unfold ids. by intros ->. Qed.

Lemma merged_NoDup df1 df2 : NoDup (ids (merged df1 df2)).
Proof.
  unfold merged.
  rewrite (ids_Permutation _ _ (stable_sort_Permutation le_date_id _)).
  apply drop_duplicates_last_NoDup.
Qed.

Lemma ids_merged i df1 df2 : i ∈ ids (merged df1 df2) ↔ i ∈ ids (df1 ++ df2).
Proof.
  unfold merged.
  rewrite (ids_Permutation _ _ (stable_sort_Permutation le_date_id _)).
  rewrite ids_drop_duplicates_last.
  by rewrite (ids_Permutation _ _ (stable_sort_Permutation le_id_timestamp _)).
Qed.

Lemma merged_max df1 df2 x y :
  y ∈ merged df1 df2 → x ∈ df1 ++ df2 →
  event_id_cnty x = event_id_cnty y → timestamp x ≤ timestamp y.
Proof.
  unfold merged. rewrite elem_of_stable_sort. intros Hy Hx.
  eapply drop_duplicates_last_max; [|exact Hy|by apply elem_of_stable_sort].
  apply stable_sort_sorted;
    [apply le_id_timestamp_total|apply le_id_timestamp_trans].
Qed.

Lemma StronglySorted_weaken {A} (R R' : A → A → Prop) l :
  (∀ a b, R a b → R' a b) → StronglySorted R l → StronglySorted R' l.
Proof.
  intros HR. induction 1 as [|a l Hl IH Ha]; constructor; [done|].
  eapply Forall_impl; [exact Ha|]. apply HR.
Qed.

Lemma merged_sorted df1 df2 : StronglySorted date_id_le (merged df1 df2).
Proof.
  unfold merged.
  eapply StronglySorted_weaken;
    [|apply (stable_sort_sorted le_date_id le_date_id_total le_date_id_trans)].
  intros a b. apply le_date_id_spec.
Qed.

(** The one row [merged] keeps for an identifier of the union. *)
Lemma merged_kept df1 df2 i :
  i ∈ ids (df1 ++ df2) →
  ∃ kept, filter (λ x, event_id_cnty x = i) (merged df1 df2) = [kept] ∧
    event_id_cnty kept = i ∧ kept ∈ df1 ++ df2 ∧
    ∀ r, r ∈ df1 ++ df2 → event_id_cnty r = i → timestamp r ≤ timestamp kept.
Proof.
  intros Hi. apply ids_merged in Hi. unfold ids in Hi.
  apply list_elem_of_fmap in Hi as (kept & -> & Hk).
  exists kept. split; [|split; [done|split]].
  - apply filter_id_singleton; [apply merged_NoDup|done].
  - by apply elem_of_merged.
  - intros r Hr E. by eapply merged_max.
Qed.

(** Within [2 ^ 53] in magnitude an integer is a [float64]. *)
Lemma to_float64_small z :
  - float64_exact ≤ z ≤ float64_exact → to_float64 z = z.
Proof.
  unfold float64_exact, to_float64. intros Hz.
  destruct (Z.leb_spec (Z.abs z) (2 ^ 53)) as [|Hgt]; [done|].
  exfalso. apply Z.abs_le in Hz. lia.
Qed.

Lemma with_timestamp_id r : with_timestamp (timestamp r) r = r.
Proof. by destruct r. Qed.

Lemma astype_representable d r :
  representable d (timestamp r) → astype d r = r.
Proof.
  destruct d; cbn; [done..|]. intros ->. apply with_timestamp_id.
Qed.

Lemma astype_exact d (df : DataFrame) :
  Forall (λ r, representable d (timestamp r)) df → astype d <$> df = df.
Proof.
  induction 1 as [|r df Hr Hdf IH]; [done|].
  rewrite fmap_cons, IH. f_equal. by apply astype_representable.
Qed.

(** When the cast changes no cell, the merge is the merge of the rows as
    they are. *)
Lemma concat_two_dfs_typed_exact df1 df2 :
  stored_exactly df1 df2 →
  _concat_two_dfs_typed df1 df2 =
    df ← _concat_two_dfs (frame df1) (frame df2);
    Ok {| timestamp_dtype :=
            find_common_type (timestamp_dtype df1) (timestamp_dtype df2);
          frame := df |}.
Proof.
  unfold stored_exactly, _concat_two_dfs_typed.
  intros [H1 H2]%Forall_app. by rewrite !astype_exact.
Qed.

Lemma stored_exactly_small df1 df2 :
  Forall (λ r, - float64_exact ≤ timestamp r ≤ float64_exact)
         (frame df1 ++ frame df2) →
  stored_exactly df1 df2.
Proof.
  unfold stored_exactly. intros H. eapply Forall_impl; [exact H|].
  intros r Hr. destruct (find_common_type _ _); cbn; [done..|].
  by apply to_float64_small.
Qed.


(** C2. The merge of two non-empty tables fails with the contiguity error
    exactly when the greatest [event_date] of the first is strictly less
    than the least [event_date] of the second; when the two are equal or
    the ranges overlap, the merge returns a table. *)
Theorem concat_two_dfs_contiguity df1 df2 :
  df1 ≠ [] → df2 ≠ [] →
  ∃ max1 min2,
    is_maximum max1 (event_date <$> df1) ∧
    is_minimum min2 (event_date <$> df2) ∧
    (_concat_two_dfs df1 df2 = Raise (RuntimeError overlap_msg) ↔ max1 < min2) ∧
    (min2 ≤ max1 → ∃ df, _concat_two_dfs df1 df2 = Ok df).
Proof.
  intros H1 H2.
  destruct (series_max_spec (event_date <$> df1)) as (max1 & _ & Hmax).
  { by destruct df1. }
  destruct (series_min_spec (event_date <$> df2)) as (min2 & _ & Hmin).
  { by destruct df2. }
  exists max1, min2. split; [done|]. split; [done|]. split; [split|].
  - intros Hfail. destruct (Z.lt_ge_cases max1 min2) as [|Hle]; [done|].
    by rewrite (concat_two_dfs_overlap _ _ _ _ Hmax Hmin Hle) in Hfail.
  - by apply concat_two_dfs_gap.
  - intros Hle. eexists. by eapply concat_two_dfs_overlap.
Qed.

(** C8. When at least one of the two tables has no rows, the merge fails
    with the empty-shard error, whatever the dates of the other table: the
    emptiness check comes before the contiguity comparison, whose error is
    never the outcome. *)
Theorem concat_two_dfs_empty df1 df2 :
  df1 = [] ∨ df2 = [] →
  _concat_two_dfs df1 df2 = Raise (RuntimeError empty_msg) ∧
  _concat_two_dfs df1 df2 ≠ Raise (RuntimeError overlap_msg).
Proof.
  intros H.
  assert (_concat_two_dfs df1 df2 = Raise (RuntimeError empty_msg)) as ->.
  { unfold _concat_two_dfs. destruct H as [-> | ->]; [done|].
    by destruct df1. }
  split; [done|]. discriminate.
Qed.


(** ** The fold over the shards *)

Lemma concat_two_dfs_no_duplicates df1 df2 df :
  _concat_two_dfs df1 df2 = Ok df → bool_sum (duplicated df) = 0%nat.
Proof.
  intros (_ & _ & ->)%concat_two_dfs_inv.
  apply duplicated_sum_NoDup, merged_NoDup.
Qed.

(** The assertion of the loop never fails. *)
Lemma concat_loop_assert first dataframes :
  concat_loop true first dataframes = concat_loop false first dataframes.
Proof.
  revert first. induction dataframes as [|next_df dfs IH]; intros first;
    [done|].
  cbn [concat_loop].
  destruct (_concat_two_dfs first next_df) as [df|e] eqn:E; [|done].
  cbn. rewrite (concat_two_dfs_no_duplicates _ _ _ E). cbn. apply IH.
Qed.

Lemma concat_loop_debug debug first dataframes :
  concat_loop debug first dataframes = concat_loop false first dataframes.
Proof. destruct debug; [apply concat_loop_assert|done]. Qed.

Lemma concat_loop_app debug first pre post :
  concat_loop debug first (pre ++ post) =
  acc ← concat_loop debug first pre; concat_loop debug acc post.
Proof.
  revert first. induction pre as [|next_df pre IH]; intros first; [done|].
  cbn [concat_loop app].
  destruct (_concat_two_dfs first next_df) as [df|e] eqn:E; [|done].
  cbn. rewrite (concat_two_dfs_no_duplicates _ _ _ E). cbn.
  rewrite andb_false_r. apply IH.
Qed.

(** After at least one step the accumulator is the outcome of a merge. *)
Lemma concat_loop_last debug first dataframes acc :
  dataframes ≠ [] → concat_loop debug first dataframes = Ok acc →
  ∃ df1 df2, _concat_two_dfs df1 df2 = Ok acc.
Proof.
  rewrite (concat_loop_debug debug).
  revert first. induction dataframes as [|next_df dfs IH]; intros first;
    [done|].
  intros _. cbn [concat_loop].
  destruct (_concat_two_dfs first next_df) as [df|e] eqn:E; [|done].
  cbn. destruct dfs as [|df' dfs].
  - intros [= <-]. eauto.
  - by apply IH.
Qed.

(** C3. In the fold of [concat] over any shards, the accumulator reached
    after any positive number of steps (the steps over [pre], whatever
    shards [post] are still to come) has no duplicated [event_id_cnty]: the
    count the loop asserts to be zero is zero, and the same accumulator is
    reached whether or not the assertion is executed. *)
Theorem concat_loop_accumulator_unique debug first pre post acc :
  pre ≠ [] →
  concat_loop debug first pre = Ok acc →
  bool_sum (duplicated acc) = 0%nat ∧
  NoDup (event_id_cnty <$> acc) ∧
  concat_loop debug first (pre ++ post) = concat_loop debug acc post ∧
  concat_loop (negb debug) first pre = Ok acc.
Proof.
  intros Hpre Hacc.
  destruct (concat_loop_last _ _ _ _ Hpre Hacc) as (df1 & df2 & Hm).
  pose proof (concat_two_dfs_no_duplicates _ _ _ Hm) as Hsum.
  split; [done|]. split; [by apply duplicated_sum_NoDup|]. split.
  - by rewrite concat_loop_app, Hacc.
  - by rewrite concat_loop_debug, <- (concat_loop_debug debug).
Qed.

(** ** Whole runs *)

Lemma mapM_length {A B} (f : A → result B) l l' :
  mapM f l = Ok l' → length l' = length l.
Proof.
  revert l'. induction l as [|a l IH]; intros l'; cbn.
  - by intros [= <-].
  - destruct (f a) as [b|e]; [|done]. cbn.
    destruct (mapM f l) as [bs|e]; [|done]. cbn.
    intros [= <-]. cbn. f_equal. by apply IH.
Qed.

Lemma sorted_paths_length names paths :
  _get_lexically_sorted_csv_paths names = Ok paths → (2 ≤ length paths)%nat.
Proof.
  unfold _get_lexically_sorted_csv_paths.
  destruct (scan_csvs (glob_csv names)) as [valid_files invalid_files].
  destruct (negb _); [done|].
  destruct (Nat.ltb_spec (length valid_files) 2) as [|Hlen]; [done|].
  intros [= <-].
  by rewrite length_fmap, (Permutation_length (stable_sort_Permutation _ _)).
Qed.

(** C4. The table a successful run of [concat] returns is sorted in
    ascending order of [(event_date, event_id_cnty)]: each row is at most
    every row after it. *)
Theorem concat_output_sorted ISO_MAP debug source_dir df :
  concat ISO_MAP debug source_dir = Ok df →
  StronglySorted date_id_le df.
Proof.
  unfold concat.
  destruct (_get_lexically_sorted_csv_paths _) as [shard_paths|e] eqn:Hp;
    [|done].
  cbn. destruct (mapM _ shard_paths) as [dataframes|e] eqn:Hl; [|done].
  cbn. apply sorted_paths_length in Hp. apply mapM_length in Hl.
  destruct dataframes as [|first [|next_df rest]]; cbn in Hl; try lia.
  intros Hrun. apply concat_loop_last in Hrun as (df1 & df2 & Hm); [|done].
  apply concat_two_dfs_inv in Hm as (_ & _ & ->). apply merged_sorted.
Qed.

(** ** Schema normaliser *)

Section normaliser_facts.
Variable ISO_MAP : gmap Z string.

Lemma elem_of_unknown_codes df code :
  code ∈ unknown_codes ISO_MAP df ↔
  code ∈ iso <$> rows df ∧ ISO_MAP !! code = None.
Proof.
  unfold unknown_codes.
  rewrite elem_of_difference, elem_of_list_to_set, not_elem_of_dom. done.
Qed.

Lemma map_iso_lookup df r :
  unknown_codes ISO_MAP df = ∅ → r ∈ rows df →
  ISO_MAP !! iso r = Some (map_iso ISO_MAP (iso r)).
Proof.
  intros Hu Hr. unfold map_iso.
  destruct (ISO_MAP !! iso r) as [v|] eqn:E; [done|].
  assert (iso r ∈ unknown_codes ISO_MAP df) as Hin.
  { apply elem_of_unknown_codes. split; [|done].
    by apply list_elem_of_fmap_2. }
  rewrite Hu in Hin. by apply not_elem_of_empty in Hin.
Qed.

Lemma has_column_true c df : has_column c df = true ↔ c ∈ columns df.
Proof. unfold has_column. apply bool_decide_eq_true. Qed.

Lemma has_column_false c df : has_column c df = false ↔ c ∉ columns df.
Proof. unfold has_column. apply bool_decide_eq_false. Qed.

Lemma add_iso3_present df : "iso3" ∈ columns df → add_iso3 ISO_MAP df = Ok df.
Proof.
  intros H. unfold add_iso3.
  by rewrite (proj2 (has_column_true _ _) H).
Qed.

Lemma add_iso3_absent df :
  "iso3" ∉ columns df → "iso" ∈ columns df →
  add_iso3 ISO_MAP df =
    if bool_decide (unknown_codes ISO_MAP df ≠ ∅)
    then Raise (ValueError (UnmappedIso (unknown_codes ISO_MAP df)))
    else Ok {| columns := columns df ++ ["iso3"];
               rows := (λ r, with_iso3 (map_iso ISO_MAP (iso r)) r)
                         <$> rows df |}.
Proof.
  intros H3 H. unfold add_iso3, set_column.
  rewrite (proj2 (has_column_false _ _) H3).
  by rewrite (proj2 (has_column_true _ _) H).
Qed.

Lemma format_df_complete df df' :
  add_iso3 ISO_MAP df = Ok df' →
  (∀ c, c ∈ RETAINED_COLS → c ∈ columns df') →
  _format_df ISO_MAP df = Ok (rows df').
Proof.
  intros E Hc. unfold _format_df. rewrite E. cbn [mbind result_bind].
  rewrite bool_decide_eq_false_2; [done|].
  intros Hne. apply Hne. apply set_eq. intros c.
  rewrite elem_of_difference, !elem_of_list_to_set.
  split; [|by intros ?%not_elem_of_empty].
  intros [H1 H2]. destruct H2. exact (Hc c H1).
Qed.

Lemma format_df_rows df out :
  _format_df ISO_MAP df = Ok out →
  ∃ df', add_iso3 ISO_MAP df = Ok df' ∧ out = rows df'.
Proof.
  unfold _format_df. destruct (add_iso3 ISO_MAP df) as [df'|e]; [|done].
  cbn [mbind result_bind].
  destruct (bool_decide _); [done|]. intros [= <-]. eauto.
Qed.
End normaliser_facts.

Lemma missing_cols_present df :
  "iso3" ∈ columns df →
  list_to_set RETAINED_COLS ∖ list_to_set (columns df)
    = missing_columns df.
Proof.
  intros H3. unfold missing_columns. apply set_eq. intros c.
  rewrite !elem_of_difference, !elem_of_list_to_set, elem_of_singleton.
  split; [|tauto]. intros [? ?]. split; [done|]. by intros ->.
Qed.

Lemma missing_cols_derived df :
  list_to_set RETAINED_COLS ∖ list_to_set (columns df ++ ["iso3"])
    = missing_columns df.
Proof.
  unfold missing_columns. apply set_eq. intros c.
  rewrite !elem_of_difference, !elem_of_list_to_set, elem_of_singleton.
  rewrite elem_of_app, list_elem_of_singleton. tauto.
Qed.

(** What [_format_df] does, in the order of its tests. *)
Lemma format_df_cases (ISO_MAP : gmap Z string) (df : RawFrame) :
  _format_df ISO_MAP df =
    if bool_decide ("iso3" ∈ columns df) then
      if bool_decide (missing_columns df ≠ ∅)
      then Raise (ValueError (MissingColumns (missing_columns df)))
      else Ok (rows df)
    else if bool_decide ("iso" ∈ columns df) then
      if bool_decide (unknown_codes ISO_MAP df ≠ ∅)
      then Raise (ValueError (UnmappedIso (unknown_codes ISO_MAP df)))
      else if bool_decide (missing_columns df ≠ ∅)
      then Raise (ValueError (MissingColumns (missing_columns df)))
      else Ok ((λ r, with_iso3 (map_iso ISO_MAP (iso r)) r) <$> rows df)
    else Raise (AttributeError "iso").
Proof.
  unfold _format_df. case_bool_decide as H3.
  - rewrite add_iso3_present by done. cbn [mbind result_bind].
    by rewrite missing_cols_present.
  - case_bool_decide as Hiso.
    + rewrite add_iso3_absent by done.
      case_bool_decide; [done|]. cbn [mbind result_bind columns rows].
      by rewrite missing_cols_derived.
    + unfold add_iso3. rewrite (proj2 (has_column_false _ _) H3).
      by rewrite (proj2 (has_column_false _ _) Hiso).
Qed.

Lemma missing_columns_empty (df : RawFrame) :
  missing_columns df = ∅ ↔
  ∀ c, c ∈ RETAINED_COLS → c ∈ columns df ∨ c = "iso3".
Proof.
  unfold missing_columns. split.
  - intros He c Hc. destruct (decide (c ∈ columns df)) as [|Hn]; [by left|].
    destruct (decide (c = "iso3")) as [|Hn']; [by right|].
    exfalso. apply (not_elem_of_empty (C:=gset string) c). rewrite <- He.
    rewrite !elem_of_difference, !elem_of_list_to_set, elem_of_singleton.
    done.
  - intros H. apply set_eq. intros c.
    rewrite !elem_of_difference, !elem_of_list_to_set, elem_of_singleton.
    split; [|by intros ?%not_elem_of_empty].
    intros [[Hc Hn] Hn']. destruct (H c Hc); done.
Qed.

Lemma iso_in_retained : "iso" ∈ RETAINED_COLS.
Proof. compute_done. Qed.

Lemma unknown_codes_empty ISO_MAP (df : RawFrame) :
  unknown_codes ISO_MAP df = ∅ ↔
  ∀ r, r ∈ rows df → is_Some (ISO_MAP !! iso r).
Proof.
  split.
  - intros He r Hr. destruct (ISO_MAP !! iso r) as [v|] eqn:E; [by eexists|].
    exfalso. apply (not_elem_of_empty (C:=gset Z) (iso r)). rewrite <- He.
    apply elem_of_unknown_codes. split; [by apply list_elem_of_fmap_2|done].
  - intros H. apply set_eq. intros code. rewrite elem_of_unknown_codes.
    split; [|by intros ?%not_elem_of_empty].
    intros [(r & -> & Hr)%list_elem_of_fmap Hn].
    destruct (H r Hr) as [v Hv]. congruence.
Qed.

(** C7. For every table that lacks the [iso3] column: every row the
    normaliser returns is the input row with [iso3] set to the entry of the
    lookup table for the row's [iso] code, its other cells unchanged; the
    normaliser returns exactly when every code of the [iso] column has an
    entry and the retained columns other than [iso3] are there; and as soon
    as a code of the [iso] column has no entry, it fails with the error
    that names exactly the codes of the column that have no entry.  (A
    table with neither column has no code to derive from; the attribute
    access [df.iso] fails.) *)
Theorem format_df_derives_iso3 (ISO_MAP : gmap Z string) (df : RawFrame) :
  "iso3" ∉ columns df →
  (∀ out, _format_df ISO_MAP df = Ok out →
     Forall2 (λ r o, ISO_MAP !! iso r = Some (iso3 o) ∧
                     event_id_cnty o = event_id_cnty r ∧ iso o = iso r ∧
                     event_date o = event_date r ∧
                     timestamp o = timestamp r ∧
                     _orig_fname o = _orig_fname r ∧
                     attributes o = attributes r) (rows df) out) ∧
  ((∃ out, _format_df ISO_MAP df = Ok out) ↔
     (∀ code, is_data_code df code → is_Some (ISO_MAP !! code)) ∧
     (∀ c, c ∈ RETAINED_COLS → c ∈ columns df ∨ c = "iso3")) ∧
  ((∃ code, is_data_code df code ∧ ISO_MAP !! code = None) →
     ∃ unknown : gset Z,
       _format_df ISO_MAP df = Raise (ValueError (UnmappedIso unknown)) ∧
       ∀ code, code ∈ unknown ↔
               is_data_code df code ∧ ISO_MAP !! code = None) ∧
  ("iso" ∉ columns df → _format_df ISO_MAP df = Raise (AttributeError "iso")).
Proof.
  intros H3. rewrite format_df_cases.
  rewrite (bool_decide_eq_false_2 _ H3).
  destruct (decide ("iso" ∈ columns df)) as [Hiso|Hiso].
  - rewrite (bool_decide_eq_true_2 _ Hiso).
    assert (∀ code, code ∈ unknown_codes ISO_MAP df ↔
                    is_data_code df code ∧ ISO_MAP !! code = None) as Hspec.
    { intros code. rewrite elem_of_unknown_codes. unfold is_data_code.
      tauto. }
    destruct (decide (unknown_codes ISO_MAP df = ∅)) as [Hu|Hu].
    + rewrite bool_decide_eq_false_2 by (intros Hne; by apply Hne).
      assert (∀ code, is_data_code df code → is_Some (ISO_MAP !! code))
        as Hall.
      { intros code [_ (r & -> & Hr)%list_elem_of_fmap].
        by apply (proj1 (unknown_codes_empty ISO_MAP df) Hu). }
      split; [|split; [|split]].
      * intros out Hout. case_bool_decide; [done|]. injection Hout as <-.
        apply Forall2_fmap_r, Forall_Forall2_diag, Forall_forall.
        intros r Hr. cbn. split; [by eapply map_iso_lookup|done].
      * case_bool_decide as Hm.
        -- split; [by intros [out ?]|]. intros [_ Hc]. destruct Hm.
           by apply missing_columns_empty.
        -- split; [|by eauto]. intros _. split; [done|].
           apply missing_columns_empty.
           destruct (decide (missing_columns df = ∅)); done.
      * intros (code & Hc & Hn). destruct (Hall code Hc) as [v Hv].
        congruence.
      * done.
    + rewrite (bool_decide_eq_true_2 _ Hu).
      split; [done|]. split; [|split; [|done]].
      * split; [by intros [out ?]|]. intros [Hall _]. destruct Hu.
        apply unknown_codes_empty. intros r Hr. apply Hall.
        split; [done|by apply list_elem_of_fmap_2].
      * intros _. eauto.
  - rewrite (bool_decide_eq_false_2 _ Hiso).
    split; [done|]. split; [|split; [|done]].
    + split; [by intros [out ?]|]. intros [_ Hc].
      destruct (Hc "iso" iso_in_retained) as [?|?]; done.
    + intros (code & [? _] & _). done.
Qed.

(** C9. For a table that already has the [iso3] column, the normaliser
    does not depend on the lookup table, never fails for unmapped [iso]
    codes, and returns the rows as they are, so with their [iso3] values
    unchanged; it returns them whenever the retained columns are there. *)
Theorem format_df_keeps_iso3 (ISO_MAP : gmap Z string) (df : RawFrame) :
  "iso3" ∈ columns df →
  (∀ ISO_MAP', _format_df ISO_MAP' df = _format_df ISO_MAP df) ∧
  (∀ unknown,
     _format_df ISO_MAP df ≠ Raise (ValueError (UnmappedIso unknown))) ∧
  (∀ out, _format_df ISO_MAP df = Ok out →
     out = rows df ∧ iso3 <$> out = iso3 <$> rows df) ∧
  ((∀ c, c ∈ RETAINED_COLS → c ∈ columns df) →
     _format_df ISO_MAP df = Ok (rows df)).
Proof.
  intros H3. split; [|split; [|split]].
  - intros ISO_MAP'. unfold _format_df. by rewrite !add_iso3_present.
  - intros unknown. unfold _format_df. rewrite add_iso3_present by done.
    cbn [mbind result_bind]. by destruct (bool_decide _).
  - intros out (df' & E & ->)%format_df_rows.
    rewrite add_iso3_present in E by done. by injection E as <-.
  - intros Hc. apply format_df_complete; [by apply add_iso3_present|done].
Qed.

(** ** Shard discovery *)

Lemma append_assoc (s1 s2 s3 : string) :
  (s1 +:+ s2) +:+ s3 = s1 +:+ s2 +:+ s3.
Proof.
  induction s1 as [|c s1 IH]; [done|]. exact (f_equal (String c) IH).
Qed.

Lemma append_empty_r (s : string) : s +:+ "" = s.
Proof.
  induction s as [|c s IH]; [done|]. exact (f_equal (String c) IH).
Qed.

Lemma contains_append_r a msg s : contains msg s → contains (a +:+ msg) s.
Proof.
  intros (pre & post & ->). exists (a +:+ pre), post. by rewrite append_assoc.
Qed.

Lemma contains_concat sep (l : list string) s :
  s ∈ l → contains (String.concat sep l) s.
Proof.
  induction l as [|x l IH]; [by intros ?%elem_of_nil|].
  intros [->|Hs]%elem_of_cons.
  - destruct l as [|y l]; simpl.
    + exists "", "". by rewrite append_empty_r.
    + by exists "", (sep +:+ String.concat sep (y :: l)).
  - destruct l as [|y l]; [by apply elem_of_nil in Hs|].
    change (String.concat sep (x :: y :: l))
      with (x +:+ sep +:+ String.concat sep (y :: l)).
    by apply contains_append_r, contains_append_r, IH.
Qed.

Lemma append_cons c (s t : string) : String c s +:+ t = String c (s +:+ t).
Proof. reflexivity. Qed.

Lemma append_nil_l (t : string) : "" +:+ t = t.
Proof. reflexivity. Qed.

(** [glob] keeps the names that end in [.csv]. *)
Lemma ends_with_spec suffix s :
  ends_with suffix s = true ↔ ∃ pre, s = pre +:+ suffix.
Proof.
  induction s as [|c s IH]; cbn [ends_with].
  - rewrite orb_false_r, String.eqb_eq. split.
    + intros <-. by exists "".
    + intros ([|c pre] & E); [done|]. by rewrite append_cons in E.
  - rewrite orb_true_iff, String.eqb_eq, IH. split.
    + intros [<-|(pre & ->)]; [by exists ""|]. by exists (String c pre).
    + intros ([|c' pre] & E); [by left|right].
      rewrite append_cons in E. injection E as -> ->. by exists pre.
Qed.

Lemma prefix_spec p s : String.prefix p s = true ↔ ∃ t, s = p +:+ t.
Proof.
  revert s. induction p as [|a p IH]; intros s.
  - destruct s; cbn; (split; [intros _; by eexists|done]).
  - destruct s as [|b s]; cbn [String.prefix].
    + split; [done|]. intros (t & E). by rewrite append_cons in E.
    + destruct (Ascii.ascii_dec a b) as [<-|Hne].
      * rewrite IH. split; intros (t & E); exists t.
        -- by rewrite append_cons, E.
        -- rewrite append_cons in E. by injection E.
      * split; [done|]. intros (t & E). rewrite append_cons in E.
        injection E as E _. congruence.
Qed.

Lemma drop_chars_append p t : drop_chars (String.length p) (p +:+ t) = t.
Proof.
  induction p as [|a p IH]; [by destruct t|]. rewrite append_cons. apply IH.
Qed.

(** The tail [.*\.csv$]: text without a newline, then [.csv] at the end of
    the name or before its final newline. *)
Lemma match_tail_spec s :
  match_tail s = true ↔
  ∃ x, no_newline x = true ∧ (s = x +:+ ".csv" ∨ s = x +:+ ".csv" +:+ nl).
Proof.
  induction s as [|c s IH].
  - split; [done|]. intros ([|c x] & _ & [E|E]); by rewrite ?append_cons in E.
  - cbn [match_tail]. rewrite !orb_true_iff, andb_true_iff, !String.eqb_eq, IH.
    split.
    + intros [[->| ->]|[Hc (x & Hx & E)]].
      * exists "". split; [done|by left].
      * exists "". split; [done|by right].
      * exists (String c x). cbn [no_newline]. rewrite Hc, Hx.
        split; [done|]. rewrite !append_cons. destruct E as [->| ->]; auto.
    + intros ([|c' x] & Hx & E).
      * rewrite !append_nil_l in E. left. destruct E as [->| ->]; auto.
      * right. cbn [no_newline] in Hx. apply andb_true_iff in Hx as [Hc Hx].
        rewrite !append_cons in E.
        assert (c = c' ∧ (s = x +:+ ".csv" ∨ s = x +:+ ".csv" +:+ nl))
          as [-> E'] by (destruct E as [E|E]; injection E; auto).
        split; [done|]. by exists x.
Qed.

(** X2. The pattern [^(\d{2})-acled.*\.csv$] matches exactly the names made
    of two digits, [-acled], any text without a newline (none at all is
    enough: no underscore and no description is required) and [.csv], at
    the end of the name or before one final newline; the prefix read is
    the number the two digits write. *)
Lemma pattern_match_spec name k :
  pattern_match name = Some k ↔
  ∃ d1 d2 x,
    is_digit d1 = true ∧ is_digit d2 = true ∧ no_newline x = true ∧
    (name = String d1 (String d2 ("-acled" +:+ x +:+ ".csv")) ∨
     name = String d1 (String d2 ("-acled" +:+ x +:+ ".csv" +:+ nl))) ∧
    k = (10 * digit_value d1 + digit_value d2)%nat.
Proof.
  split.
  - destruct name as [|d1 [|d2 rest]]; [done..|]. cbn [pattern_match].
    destruct (is_digit d1) eqn:H1; [|done].
    destruct (is_digit d2) eqn:H2; [|done].
    destruct (String.prefix "-acled" rest) eqn:Hp; [|done].
    destruct (match_tail (drop_chars 6 rest)) eqn:Ht; [|done].
    cbn [andb]. intros [= <-].
    apply prefix_spec in Hp as (t & ->).
    pose proof (drop_chars_append "-acled" t) as Hd.
    change (String.length "-acled") with 6%nat in Hd. rewrite Hd in Ht.
    apply match_tail_spec in Ht as (x & Hx & E).
    exists d1, d2, x. repeat (split; [done|]).
    split; [|done]. destruct E as [->| ->]; auto.
  - intros (d1 & d2 & x & H1 & H2 & Hx & E & ->).
    assert (∃ t, name = String d1 (String d2 ("-acled" +:+ t)) ∧
                 match_tail t = true) as (t & -> & Ht).
    { destruct E as [->| ->]; eexists; (split; [reflexivity|]);
        apply match_tail_spec; exists x; auto. }
    cbn [pattern_match]. rewrite H1, H2.
    rewrite (proj2 (prefix_spec "-acled" _)) by eauto.
    pose proof (drop_chars_append "-acled" t) as Hd.
    change (String.length "-acled") with 6%nat in Hd. by rewrite Hd, Ht.
Qed.

Lemma scan_csvs_valid l : (scan_csvs l).1 = omap shard_entry l.
Proof.
  induction l as [|name l IH]; [done|].
  cbn [scan_csvs omap list_omap]. fold (omap shard_entry l). rewrite <- IH.
  unfold shard_entry. destruct (scan_csvs l) as [v i].
  destruct (is_output name); [done|]. by destruct (pattern_match name).
Qed.

Lemma scan_csvs_invalid l :
  (scan_csvs l).2 =
  filter (λ n, is_output n = false ∧ pattern_match n = None) l.
Proof.
  induction l as [|name l IH]; [done|].
  cbn [scan_csvs]. destruct (scan_csvs l) as [v i]. cbn [snd] in IH.
  destruct (is_output name) eqn:Ho.
  - rewrite filter_cons_False; [done|]. intros [? _]. congruence.
  - destruct (pattern_match name) eqn:Hp.
    + rewrite filter_cons_False; [done|]. intros [_ ?]. congruence.
    + rewrite filter_cons_True by done. cbn. by f_equal.
Qed.

Lemma invalid_files_spec names :
  (scan_csvs (glob_csv names)).2 = filter is_invalid_name names.
Proof.
  rewrite scan_csvs_invalid. unfold glob_csv. rewrite list_filter_filter.
  apply list_filter_iff. intros n. unfold is_invalid_name. tauto.
Qed.

(** The three outcomes of discovery. *)
Lemma discovery_cases names :
  let valid_files := omap shard_entry (glob_csv names) in
  let invalid_files := filter is_invalid_name names in
  _get_lexically_sorted_csv_paths names =
    if bool_decide (invalid_files = []) then
      if (length valid_files <? 2)%nat then Raise (RuntimeError too_few_msg)
      else Ok ((stable_sort le_prefix valid_files).*2)
    else Raise (RuntimeError (invalid_msg invalid_files)).
Proof.
  cbn zeta. unfold _get_lexically_sorted_csv_paths.
  rewrite <- invalid_files_spec, <- scan_csvs_valid.
  destruct (scan_csvs (glob_csv names)) as [v i]. cbn [fst snd].
  by destruct (bool_decide (i = [])).
Qed.

Lemma pattern_match_not_output n k :
  pattern_match n = Some k → is_output n = false.
Proof.
  destruct n as [|d1 [|d2 rest]]; [done..|]. cbn [pattern_match].
  destruct (is_digit d1) eqn:Hd; [|done]. intros _.
  unfold is_output. cbn [String.prefix].
  destruct (Ascii.ascii_dec "c" d1) as [<-|]; [done|done].
Qed.

Lemma filter_not_output_invalid (names : list string) :
  filter is_invalid_name (filter (λ n, is_output n = false) names) =
  filter is_invalid_name names.
Proof.
  rewrite list_filter_filter. apply list_filter_iff.
  intros n. unfold is_invalid_name. tauto.
Qed.

Lemma shard_entry_output n : is_output n = true → shard_entry n = None.
Proof. unfold shard_entry. by intros ->. Qed.

Lemma omap_shard_entry_not_output (l : list string) :
  omap shard_entry (filter (λ n, is_output n = false) l) = omap shard_entry l.
Proof.
  induction l as [|n l IH]; [done|].
  destruct (is_output n) eqn:Ho.
  - rewrite filter_cons_False by congruence.
    cbn [omap list_omap]. by rewrite (shard_entry_output n Ho).
  - rewrite filter_cons_True by done. cbn [omap list_omap].
    destruct (shard_entry n); [f_equal|]; apply IH.
Qed.

Lemma glob_csv_not_output names :
  glob_csv (filter (λ n, is_output n = false) names) =
  filter (λ n, is_output n = false) (glob_csv names).
Proof.
  unfold glob_csv. rewrite !list_filter_filter. apply list_filter_iff.
  intros n. tauto.
Qed.

Lemma elem_of_sorted_paths names paths p :
  _get_lexically_sorted_csv_paths names = Ok paths → p ∈ paths →
  p ∈ names ∧ ends_with ".csv" p = true ∧ is_output p = false ∧
  is_Some (pattern_match p).
Proof.
  rewrite discovery_cases. cbn zeta.
  destruct (bool_decide _); [|done]. destruct (_ <? _)%nat; [done|].
  intros [= <-]. rewrite list_elem_of_fmap.
  intros ([k n] & -> & Hin). apply elem_of_stable_sort in Hin.
  apply list_elem_of_omap in Hin as (n' & Hn' & He).
  apply list_elem_of_filter in Hn' as [Hcsv Hn'].
  unfold shard_entry in He. destruct (is_output n') eqn:Ho; [done|].
  destruct (pattern_match n') as [k'|] eqn:Hp; [|done].
  injection He as <- <-. cbn. by rewrite Hp.
Qed.

Lemma is_digit_spec c : is_digit c = true ↔ is_decimal_digit c.
Proof.
  unfold is_decimal_digit.
  destruct c as [[] [] [] [] [] [] [] []];
    (split; [intros H; vm_compute in H; first [discriminate H | compute_done]
            | intros H; first [reflexivity | exfalso; revert H; compute_done]]).
Qed.

Lemma is_output_spec n : is_output n = true ↔ is_output_name n.
Proof. apply prefix_spec. Qed.

Lemma is_csv_spec n : ends_with ".csv" n = true ↔ is_csv_name n.
Proof. apply ends_with_spec. Qed.

Lemma pattern_match_is_Some name :
  is_Some (pattern_match name) ↔ is_shard_name name.
Proof.
  unfold is_shard_name. split.
  - intros [k Hk]. destruct name as [|d1 [|d2 rest]]; [done..|].
    cbn [pattern_match] in Hk.
    destruct (is_digit d1) eqn:H1; [|done].
    destruct (is_digit d2) eqn:H2; [|done].
    destruct (String.prefix "-acled" rest) eqn:Hp; [|done].
    destruct (match_tail (drop_chars 6 rest)) eqn:Ht; [|done].
    apply prefix_spec in Hp as (t & ->).
    pose proof (drop_chars_append "-acled" t) as Hd.
    change (String.length "-acled") with 6%nat in Hd. rewrite Hd in Ht.
    apply match_tail_spec in Ht as (x & Hx & E).
    exists d1, d2, x. rewrite <- !is_digit_spec.
    repeat (split; [done|]). destruct E as [->| ->]; auto.
  - intros (d1 & d2 & x & H1%is_digit_spec & H2%is_digit_spec & Hx & E).
    assert (∃ t, name = String d1 (String d2 ("-acled" +:+ t)) ∧
                 match_tail t = true) as (t & -> & Ht).
    { destruct E as [->| ->]; eexists; (split; [reflexivity|]);
        apply match_tail_spec; exists x; auto. }
    cbn [pattern_match]. rewrite H1, H2.
    rewrite (proj2 (prefix_spec "-acled" _)) by eauto.
    pose proof (drop_chars_append "-acled" t) as Hd.
    change (String.length "-acled") with 6%nat in Hd. rewrite Hd, Ht.
    by eexists.
Qed.

Lemma is_bad_name_spec n : is_bad_name n ↔ is_invalid_name n.
Proof.
  unfold is_bad_name, is_invalid_name.
  rewrite <- is_csv_spec, <- is_output_spec, <- pattern_match_is_Some.
  rewrite not_true_iff_false, <- eq_None_not_Some. done.
Qed.

Lemma contains_append_l msg a s : contains msg (a +:+ s) → contains msg s.
Proof.
  intros (pre & post & ->). exists (pre +:+ a), post.
  by rewrite !append_assoc.
Qed.

Lemma invalid_header_heading n :
  ∃ head, ∀ rest,
    invalid_header n +:+ rest = head +:+ "Invalid files found:" +:+ nl +:+ rest.
Proof.
  exists ("Found " +:+ decimal n +:+ " invalid ACLED source file(s)." +:+ nl +:+
  "Each single CSV file in 'source_dir' (other than known output files " +:+
  "starting with 'consolidated_acled') must follow the naming pattern:" +:+ nl +:+
  "    NN-acled_<description>.csv" +:+ nl +:+
  "Examples:" +:+ nl +:+
  "  - 01-acled_2021_download.csv" +:+ nl +:+
  "  - 02-acled_2022_update.csv" +:+ nl +:+
  "  - 03-acled_2023_another_update.csv" +:+ nl).
  intros rest. unfold invalid_header. by rewrite !append_assoc.
Qed.

Lemma discovery_without_output pre out post :
  is_output out = true →
  _get_lexically_sorted_csv_paths (pre ++ out :: post)
    = _get_lexically_sorted_csv_paths (pre ++ post).
Proof.
  intros Ho. rewrite !discovery_cases. cbn zeta.
  assert (filter is_invalid_name (pre ++ out :: post)
          = filter is_invalid_name (pre ++ post)) as ->.
  { rewrite !filter_app. f_equal. apply filter_cons_False.
    intros (_ & ? & _). congruence. }
  assert (omap shard_entry (glob_csv (pre ++ out :: post))
          = omap shard_entry (glob_csv (pre ++ post))) as ->; [|done].
  unfold glob_csv. rewrite !filter_app, !omap_app. f_equal.
  destruct (decide (ends_with ".csv" out = true)) as [Hc|Hc].
  - rewrite filter_cons_True by done. cbn [omap list_omap].
    by rewrite (shard_entry_output out Ho).
  - by rewrite filter_cons_False.
Qed.

(** C6. Discovery fails as soon as the directory has one [.csv] name that
    does not begin with [consolidated_acled] and has not the form
    [NN-acled...csv]; the message then ends, after the line
    [Invalid files found:], with one line [  - name] for each such name,
    for all of them and for no other name, so every one of them occurs in
    the message; a name that begins with the output prefix plays no part
    in the outcome (discovery is the same on the directory without it) and
    none is among the paths returned. *)
Theorem discovery_rejects_invalid_names names :
  (∀ bad, bad ∈ names → is_bad_name bad →
     ∃ msg head invalid,
       _get_lexically_sorted_csv_paths names = Raise (RuntimeError msg) ∧
       msg = head +:+ "Invalid files found:" +:+ nl +:+
             String.concat nl ((λ n, "  - " +:+ n) <$> invalid) ∧
       (∀ n, n ∈ invalid ↔ n ∈ names ∧ is_bad_name n) ∧
       (∀ n, n ∈ names → is_bad_name n → contains msg n)) ∧
  (∀ pre out post, is_output_name out →
     _get_lexically_sorted_csv_paths (pre ++ out :: post)
       = _get_lexically_sorted_csv_paths (pre ++ post)) ∧
  (∀ paths p, _get_lexically_sorted_csv_paths names = Ok paths → p ∈ paths →
     p ∈ names ∧ ¬ is_output_name p).
Proof.
  split; [|split].
  - intros bad Hbad Hinv%is_bad_name_spec.
    destruct (invalid_header_heading (length (filter is_invalid_name names)))
      as [head Hhead].
    exists (invalid_msg (filter is_invalid_name names)), head,
      (filter is_invalid_name names).
    assert (∀ n, n ∈ filter is_invalid_name names ↔ n ∈ names ∧ is_bad_name n)
      as Hspec.
    { intros n. rewrite list_elem_of_filter, is_bad_name_spec. tauto. }
    split; [|split; [|split]].
    + rewrite discovery_cases. cbn zeta.
      rewrite bool_decide_eq_false_2; [done|].
      intros Hnil. assert (bad ∈ filter is_invalid_name names) as Hin.
      { by apply list_elem_of_filter. }
      rewrite Hnil in Hin. by apply elem_of_nil in Hin.
    + unfold invalid_msg. rewrite Hhead. done.
    + exact Hspec.
    + intros n Hn Hi. apply (contains_append_l _ "  - ").
      unfold invalid_msg. apply contains_append_r, contains_concat.
      apply list_elem_of_fmap. exists n. split; [done|]. by apply Hspec.
  - intros pre out post Ho%is_output_spec. by apply discovery_without_output.
  - intros paths p Hok Hp.
    destruct (elem_of_sorted_paths _ _ _ Hok Hp) as (? & _ & Ho & _).
    split; [done|]. rewrite <- is_output_spec. congruence.
Qed.

Lemma StronglySorted_fmap_weaken {A B} (R : A → A → Prop) (R' : B → B → Prop)
    (f : A → B) l :
  (∀ a b, R a b → R' (f a) (f b)) →
  StronglySorted R l → StronglySorted R' (f <$> l).
Proof.
  intros HR. induction 1 as [|a l Hl IH Ha]; cbn; constructor; [done|].
  apply Forall_fmap. eapply Forall_impl; [exact Ha|]. intros b. apply HR.
Qed.

Lemma StronglySorted_le_lt (l : list nat) :
  StronglySorted le l → NoDup l → StronglySorted lt l.
Proof.
  induction 1 as [|a l Hl IH Ha]; [constructor|].
  intros [Hnin Hnd]%NoDup_cons. constructor; [by apply IH|].
  rewrite Forall_forall in Ha |- *. intros b Hb.
  specialize (Ha b Hb). assert (a ≠ b) by (by intros ->). lia.
Qed.

Lemma NoDup_fmap_eq {A B} (f : A → B) (l : list A) x y :
  NoDup (f <$> l) → x ∈ l → y ∈ l → f x = f y → x = y.
Proof.
  induction l as [|a l IH]; [by intros _ ?%elem_of_nil|].
  rewrite fmap_cons, NoDup_cons.
  intros [Ha Hl] [->|Hx]%elem_of_cons [->|Hy]%elem_of_cons E; [done| | |by apply IH].
  - destruct Ha. rewrite E. by apply list_elem_of_fmap_2.
  - destruct Ha. rewrite <- E. by apply list_elem_of_fmap_2.
Qed.

Lemma le_prefix_total a b : le_prefix a b = true ∨ le_prefix b a = true.
Proof. unfold le_prefix. rewrite !Nat.leb_le. lia. Qed.

Lemma le_prefix_trans a b c :
  le_prefix a b = true → le_prefix b c = true → le_prefix a c = true.
Proof. unfold le_prefix. rewrite !Nat.leb_le. lia. Qed.

Lemma elem_of_valid_files (names : list string) k n :
  (k, n) ∈ omap shard_entry (glob_csv names) ↔
  n ∈ names ∧ is_candidate n ∧ pattern_match n = Some k.
Proof.
  rewrite list_elem_of_omap. unfold glob_csv, shard_entry, is_candidate. split.
  - intros (n' & [Hcsv Hin]%list_elem_of_filter & He).
    destruct (is_output n') eqn:Ho; [done|].
    destruct (pattern_match n') as [k'|] eqn:Hp; [|done].
    by injection He as <- <-.
  - intros (Hin & [Hcsv Ho] & Hp). exists n.
    split; [by apply list_elem_of_filter|]. by rewrite Ho, Hp.
Qed.

Lemma valid_files_names (names : list string) :
  (∀ n, n ∈ names → is_candidate n → is_Some (pattern_match n)) →
  (omap shard_entry (glob_csv names)).*2 = filter is_candidate names.
Proof.
  unfold glob_csv. induction names as [|n names IH]; intros Hall; [done|].
  assert (∀ n, n ∈ names → is_candidate n → is_Some (pattern_match n)) as Hall'.
  { intros n' Hn'. apply Hall. by right. }
  destruct (decide (is_candidate n)) as [Hc|Hc].
  - rewrite (filter_cons_True is_candidate) by done.
    destruct (Hall n) as [k Hk]; [by left|done|]. destruct Hc as [Hcsv Ho].
    rewrite filter_cons_True by done. cbn [omap list_omap].
    unfold shard_entry at 1. rewrite Ho, Hk. cbn. f_equal. by apply IH.
  - rewrite (filter_cons_False is_candidate) by done.
    destruct (ends_with ".csv" n) eqn:Hcsv.
    + rewrite filter_cons_True by done. cbn [omap list_omap].
      unfold shard_entry at 1. destruct (is_output n) eqn:Ho; [by apply IH|].
      destruct Hc. by split.
    + rewrite filter_cons_False by congruence. by apply IH.
Qed.

Lemma invalid_files_nil (names : list string) :
  (∀ n, n ∈ names → is_candidate n → is_Some (pattern_match n)) →
  filter is_invalid_name names = [].
Proof.
  intros Hall. apply filter_none. intros n Hn (Hcsv & Ho & Hp).
  destruct (Hall n Hn) as [k Hk]; [by split|]. congruence.
Qed.

(** C5, as the code has it. When every [.csv] name of the directory that
    does not begin with the output prefix matches the pattern, and there
    are at least two of them, discovery returns exactly these names, in
    ascending order of their numeric prefix; the order is strictly
    ascending, and the same for every order in which the directory is
    listed, when no two names have the same prefix. *)
Theorem discovery_sorted_by_prefix (names : list string) :
  (∀ n, n ∈ names → is_candidate n → is_Some (pattern_match n)) →
  (2 ≤ length (filter is_candidate names))%nat →
  ∃ paths prefixes,
    _get_lexically_sorted_csv_paths names = Ok paths ∧
    paths ≡ₚ filter is_candidate names ∧
    Forall2 (λ p k, pattern_match p = Some k) paths prefixes ∧
    StronglySorted le prefixes ∧
    (NoDup prefixes →
       StronglySorted lt prefixes ∧
       ∀ names', names' ≡ₚ names →
         _get_lexically_sorted_csv_paths names' = Ok paths).
Proof.
  intros Hall Hlen.
  set (valid_files := omap shard_entry (glob_csv names)).
  assert (valid_files.*2 = filter is_candidate names) as Hnames
    by (by apply valid_files_names).
  assert (length valid_files = length (filter is_candidate names)) as Hl.
  { by rewrite <- Hnames, length_fmap. }
  pose proof (stable_sort_Permutation le_prefix valid_files) as Hperm.
  pose proof (stable_sort_sorted le_prefix le_prefix_total le_prefix_trans
                valid_files) as Hsorted.
  exists ((stable_sort le_prefix valid_files).*2),
         ((stable_sort le_prefix valid_files).*1).
  split; [|split; [|split; [|split]]].
  - rewrite discovery_cases. cbn zeta. fold valid_files.
    rewrite (invalid_files_nil names Hall).
    rewrite bool_decide_eq_true_2 by done.
    destruct (Nat.ltb_spec (length valid_files) 2); [lia|done].
  - by rewrite Hperm, Hnames.
  - apply Forall2_fmap, Forall_Forall2_diag, Forall_forall.
    intros [k n] Hin. rewrite Hperm in Hin.
    apply elem_of_valid_files in Hin as (_ & _ & Hp). done.
  - eapply StronglySorted_fmap_weaken; [|exact Hsorted].
    intros a b. unfold le_prefix. apply Nat.leb_le.
  - intros Hnd. split.
    + apply StronglySorted_le_lt; [|done].
      eapply StronglySorted_fmap_weaken; [|exact Hsorted].
      intros a b. unfold le_prefix. apply Nat.leb_le.
    + intros names' Hnames'.
      assert (omap shard_entry (glob_csv names') ≡ₚ valid_files) as Hv.
      { unfold valid_files, glob_csv. by rewrite Hnames'. }
      rewrite discovery_cases. cbn zeta.
      assert (filter is_invalid_name names' = []) as ->.
      { apply Permutation_nil. rewrite Hnames'.
        by rewrite (invalid_files_nil names Hall). }
      rewrite bool_decide_eq_true_2 by done.
      rewrite (Permutation_length Hv).
      destruct (Nat.ltb_spec (length valid_files) 2); [lia|].
      do 2 f_equal.
      apply (StronglySorted_unique_strong (λ a b, le_prefix a b = true)).
      * intros x1 x2 H1 H2 H12 H21.
        apply (NoDup_fmap_eq fst valid_files).
        -- by rewrite <- Hperm.
        -- apply elem_of_stable_sort in H1. by rewrite <- Hv.
        -- by apply elem_of_stable_sort in H2.
        -- unfold le_prefix in *. apply Nat.leb_le in H12, H21. lia.
      * apply stable_sort_sorted; [apply le_prefix_total|apply le_prefix_trans].
      * done.
      * by rewrite !stable_sort_Permutation.
Qed.

(** ** The fixtures are what the loader and the driver compute *)

Example load_shard1 :
  _load_and_format_df TEST_ISO_MAP mock_dir "01-acled_mock.csv" = Ok shard1.
Proof. vm_compute. reflexivity. Qed.

Example load_shard2 :
  _load_and_format_df TEST_ISO_MAP mock_dir "02-acled_mock.csv" = Ok shard2.
Proof. vm_compute. reflexivity. Qed.

(** [test_concat_merges_and_deduplicates] *)
Example concat_mock_dir : concat TEST_ISO_MAP true mock_dir = Ok consolidated12.
Proof. vm_compute. reflexivity. Qed.

(** [test_concat_raises_without_temporal_overlap] *)
Example concat_gap :
  _concat_two_dfs shard1 shard3 = Raise (RuntimeError overlap_msg).
Proof. vm_compute. reflexivity. Qed.

(** ** The theorems at the fixtures *)



Lemma concat_two_dfs_contiguity_witness :
  shard1 ≠ [] ∧ shard3 ≠ [] ∧
  ∃ max1 min2,
    is_maximum max1 (event_date <$> shard1) ∧
    is_minimum min2 (event_date <$> shard3) ∧
    (_concat_two_dfs shard1 shard3 = Raise (RuntimeError overlap_msg)
       ↔ max1 < min2) ∧
    (min2 ≤ max1 → ∃ df, _concat_two_dfs shard1 shard3 = Ok df).
Proof.
  assert (shard1 ≠ []) as H1 by discriminate.
  assert (shard3 ≠ []) as H3 by discriminate.
  repeat (split; [assumption|]).
  apply (concat_two_dfs_contiguity shard1 shard3); assumption.
Defined.

Lemma concat_two_dfs_empty_witness :
  (shard1 = [] ∨ @nil Event = []) ∧
  _concat_two_dfs shard1 [] = Raise (RuntimeError empty_msg) ∧
  _concat_two_dfs shard1 [] ≠ Raise (RuntimeError overlap_msg).
Proof.
  assert (shard1 = [] ∨ @nil Event = []) as H by (right; reflexivity).
  split; [assumption|]. apply (concat_two_dfs_empty shard1 []); assumption.
Defined.



Lemma concat_loop_accumulator_unique_witness :
  [shard2] ≠ [] ∧
  concat_loop true shard1 [shard2] = Ok consolidated12 ∧
  bool_sum (duplicated consolidated12) = 0%nat ∧
  NoDup (event_id_cnty <$> consolidated12) ∧
  concat_loop true shard1 ([shard2] ++ [shard_repeat])
    = concat_loop true consolidated12 [shard_repeat] ∧
  concat_loop (negb true) shard1 [shard2] = Ok consolidated12.
Proof.
  assert ([shard2] ≠ []) as Hpre by discriminate.
  assert (concat_loop true shard1 [shard2] = Ok consolidated12) as Hacc
    by (vm_compute; reflexivity).
  repeat (split; [assumption|]).
  apply (concat_loop_accumulator_unique true shard1 [shard2] [shard_repeat]
           consolidated12); assumption.
Defined.

Lemma concat_output_sorted_witness :
  concat TEST_ISO_MAP true mock_dir = Ok consolidated12 ∧
  StronglySorted date_id_le consolidated12.
Proof.
  assert (concat TEST_ISO_MAP true mock_dir = Ok consolidated12) as Hrun
    by (vm_compute; reflexivity).
  split; [assumption|].
  apply (concat_output_sorted TEST_ISO_MAP true mock_dir consolidated12);
    assumption.
Defined.

Lemma format_df_derives_iso3_witness :
  ("iso3" ∉ columns mock_loaded1) ∧ ("iso3" ∉ columns mock_unmapped) ∧
  _format_df TEST_ISO_MAP mock_loaded1 = Ok shard1 ∧
  Forall2 (λ r o, TEST_ISO_MAP !! iso r = Some (iso3 o))
          (rows mock_loaded1) shard1 ∧
  ∃ unknown : gset Z,
    _format_df TEST_ISO_MAP mock_unmapped
      = Raise (ValueError (UnmappedIso unknown)) ∧
    998 ∈ unknown ∧ 999 ∈ unknown ∧ 123 ∉ unknown.
Proof.
  assert ("iso3" ∉ columns mock_loaded1) as H3 by compute_done.
  assert ("iso3" ∉ columns mock_unmapped) as H3' by compute_done.
  assert (_format_df TEST_ISO_MAP mock_loaded1 = Ok shard1) as Hrun
    by (vm_compute; reflexivity).
  repeat (split; [assumption|]).
  split.
  - eapply Forall2_impl;
      [exact (proj1 (format_df_derives_iso3 TEST_ISO_MAP mock_loaded1 H3)
                    shard1 Hrun)|].
    by intros r o [? _].
  - destruct (format_df_derives_iso3 TEST_ISO_MAP mock_unmapped H3')
      as (_ & _ & Herr & _).
    destruct Herr as (unknown & Hraise & Hspec).
    { exists 999. compute_done. }
    exists unknown. split; [assumption|].
    rewrite !Hspec. compute_done.
Defined.

Lemma format_df_keeps_iso3_witness :
  "iso3" ∈ columns mock_recent ∧
  TEST_ISO_MAP !! 999 = None ∧
  _format_df TEST_ISO_MAP mock_recent = Ok (rows mock_recent) ∧
  ∀ unknown,
    _format_df TEST_ISO_MAP mock_recent
      ≠ Raise (ValueError (UnmappedIso unknown)).
Proof.
  assert ("iso3" ∈ columns mock_recent) as H3 by compute_done.
  assert (TEST_ISO_MAP !! 999 = None) as Hno by (vm_compute; reflexivity).
  repeat (split; [assumption|]).
  destruct (format_df_keeps_iso3 TEST_ISO_MAP mock_recent H3)
    as (_ & Hnever & _ & Hok).
  split; [|exact Hnever].
  apply Hok.
  apply (proj1 (Forall_forall (λ c, c ∈ columns mock_recent) RETAINED_COLS)).
  compute_done.
Defined.

Lemma discovery_rejects_invalid_names_witness :
  let names := [ "01-acled.csv"; "acled_2022.csv"; "not-even-csv.txt";
                 "consolidated_acled_old.csv"; "1-acled.csv" ] in
  "acled_2022.csv" ∈ names ∧ is_bad_name "acled_2022.csv" ∧
  ∃ msg,
    _get_lexically_sorted_csv_paths names = Raise (RuntimeError msg) ∧
    contains msg "acled_2022.csv" ∧ contains msg "1-acled.csv" ∧
    _get_lexically_sorted_csv_paths
      [ "01-acled.csv"; "acled_2022.csv"; "not-even-csv.txt"; "1-acled.csv" ]
      = Raise (RuntimeError msg).
Proof.
  intros names.
  assert ("acled_2022.csv" ∈ names) as Hin by compute_done.
  assert (is_bad_name "acled_2022.csv") as Hbad
    by (apply is_bad_name_spec; compute_done).
  assert ("1-acled.csv" ∈ names) as Hin' by compute_done.
  assert (is_bad_name "1-acled.csv") as Hbad'
    by (apply is_bad_name_spec; compute_done).
  repeat (split; [assumption|]).
  destruct (discovery_rejects_invalid_names names) as (Hfail & Hout & _).
  destruct (Hfail _ Hin Hbad) as (msg & head & invalid & Hmsg & _ & _ & Hall).
  exists msg. split; [exact Hmsg|].
  split; [by apply Hall|]. split; [by apply Hall|].
  rewrite <- Hmsg. symmetry.
  apply (Hout [ "01-acled.csv"; "acled_2022.csv"; "not-even-csv.txt" ]
              "consolidated_acled_old.csv" [ "1-acled.csv" ]).
  by exists "_old.csv".
Defined.

Lemma discovery_sorted_by_prefix_witness :
  let names := [ "10-acled_c.csv"; "notes.txt"; "02-acled_b.csv";
                 "consolidated_acled.csv"; "01-acled_a.csv" ] in
  (∀ n, n ∈ names → is_candidate n → is_Some (pattern_match n)) ∧
  (2 ≤ length (filter is_candidate names))%nat ∧
  ∃ paths prefixes,
    _get_lexically_sorted_csv_paths names = Ok paths ∧
    paths ≡ₚ filter is_candidate names ∧
    Forall2 (λ p k, pattern_match p = Some k) paths prefixes ∧
    StronglySorted le prefixes ∧
    (NoDup prefixes →
       StronglySorted lt prefixes ∧
       ∀ names', names' ≡ₚ names →
         _get_lexically_sorted_csv_paths names' = Ok paths).
Proof.
  intros names.
  assert (∀ n, n ∈ names → is_candidate n → is_Some (pattern_match n)) as Hall.
  { apply (proj1 (Forall_forall
               (λ n, is_candidate n → is_Some (pattern_match n)) names)).
    compute_done. }
  assert (2 ≤ length (filter is_candidate names))%nat as Hlen
    by (vm_compute; lia).
  repeat (split; [assumption|]).
  apply (discovery_sorted_by_prefix names); assumption.
Defined.

(** C5, as it is stated, fails: two names with the same prefix are valid
    shard names, and the prefixes of the paths returned are then not
    strictly ascending. *)
Lemma discovery_strict_order_counterexample :
  ¬ (∀ names : list string,
       (∀ n, n ∈ names → is_candidate n → is_Some (pattern_match n)) →
       (2 ≤ length (filter is_candidate names))%nat →
       ∃ paths prefixes,
         _get_lexically_sorted_csv_paths names = Ok paths ∧
         Forall2 (λ p k, pattern_match p = Some k) paths prefixes ∧
         StronglySorted lt prefixes ∧
         ∀ names', names' ≡ₚ names →
           _get_lexically_sorted_csv_paths names' = Ok paths).
Proof.
  intros Hclaim.
  destruct (Hclaim ["01-acled_b.csv"; "01-acled_a.csv"])
    as (paths & prefixes & Hok & Hpre & Hlt & _).
  { apply (proj1 (Forall_forall
               (λ n, is_candidate n → is_Some (pattern_match n)) _)).
    compute_done. }
  { vm_compute. lia. }
  assert (paths = ["01-acled_b.csv"; "01-acled_a.csv"]) as ->.
  { vm_compute in Hok. by injection Hok as <-. }
  apply Forall2_cons_inv_l in Hpre as (k1 & ks & Hk1 & Hpre & ->).
  apply Forall2_cons_inv_l in Hpre as (k2 & ks' & Hk2 & _ & ->).
  vm_compute in Hk1, Hk2. injection Hk1 as <-. injection Hk2 as <-.
  apply StronglySorted_inv in Hlt as [_ Hlt].
  apply Forall_cons in Hlt as [Hlt _]. lia.
Qed.

(** With equal prefixes the paths returned follow the listing order. *)
Example discovery_listing_order :
  _get_lexically_sorted_csv_paths ["01-acled_b.csv"; "01-acled_a.csv"]
    = Ok ["01-acled_b.csv"; "01-acled_a.csv"] ∧
  _get_lexically_sorted_csv_paths ["01-acled_a.csv"; "01-acled_b.csv"]
    = Ok ["01-acled_a.csv"; "01-acled_b.csv"].
Proof. split; vm_compute; reflexivity. Qed.


(** * Further properties of the code *)

(** ** Stability of the sorts *)

Section stability.
Context {A : Type} (le : A → A → bool) (P : A → Prop) `{!∀ x, Decision (P x)}.
Hypothesis le_class : ∀ x y, P x → P y → le x y = true.

Lemma filter_insert_row x l :
  filter P (insert_row le x l) = filter P (x :: l).
Proof.
  induction l as [|y l IH]; [done|]. cbn [insert_row].
  destruct (le x y) eqn:Hxy; [done|].
  destruct (decide (P y)) as [Hy|Hy].
  - assert (¬ P x) as Hx.
    { intros Hx. by rewrite (le_class x y Hx Hy) in Hxy. }
    rewrite (filter_cons_True P y) by done. rewrite IH.
    rewrite !(filter_cons_False P x) by done. by rewrite filter_cons_True.
  - rewrite (filter_cons_False P y) by done. rewrite IH.
    destruct (decide (P x)).
    + rewrite !(filter_cons_True P x) by done. by rewrite filter_cons_False.
    + rewrite !(filter_cons_False P x) by done. by rewrite filter_cons_False.
Qed.

(** The rows of a class that the order does not tell apart keep their
    relative order. *)
Lemma filter_stable_sort l : filter P (stable_sort le l) = filter P l.
Proof.
  induction l as [|x l IH]; [done|]. cbn [stable_sort].
  rewrite filter_insert_row.
  destruct (decide (P x)).
  - rewrite !(filter_cons_True P x) by done. by rewrite IH.
  - rewrite !(filter_cons_False P x) by done. by rewrite IH.
Qed.
End stability.

(** ** Ties in the merge *)

Lemma last_filter_cons {A} (P : A → Prop) `{!∀ x, Decision (P x)} a l y :
  last (filter P l) = Some y → last (filter P (a :: l)) = Some y.
Proof.
  intros Hl. destruct (decide (P a)).
  - rewrite filter_cons_True by done.
    destruct (filter P l) as [|b l']; [done|]. exact Hl.
  - by rewrite filter_cons_False.
Qed.

(** The row kept for an identifier is the last row that has it. *)
Lemma drop_duplicates_last_last l y :
  y ∈ drop_duplicates_last l →
  last (filter (λ r, event_id_cnty r = event_id_cnty y) l) = Some y.
Proof.
  induction l as [|a l IH]; cbn [drop_duplicates_last];
    [by intros ?%elem_of_nil|].
  destruct (existsb (same_id a) l) eqn:E.
  - intros Hy. by apply last_filter_cons, IH.
  - assert (event_id_cnty a ∉ ids l) as Ha.
    { intros H%existsb_same_id. congruence. }
    intros [->|Hy]%elem_of_cons.
    + rewrite filter_cons_True by done. rewrite filter_none; [done|].
      intros x Hx Hid. apply Ha. rewrite <- Hid. unfold ids.
      by apply list_elem_of_fmap_2.
    + by apply last_filter_cons, IH.
Qed.

Lemma last_filter_filter {A} (P Q : A → Prop) `{!∀ x, Decision (P x)}
    `{!∀ x, Decision (Q x)} (l : list A) y :
  last (filter P l) = Some y → Q y →
  last (filter (λ x, Q x ∧ P x) l) = Some y.
Proof.
  intros Hl Hy. rewrite <- list_filter_filter.
  apply last_Some in Hl as (l' & ->).
  rewrite filter_app, filter_cons_True by done. cbn.
  by rewrite last_snoc.
Qed.

Lemma merged_last_tie df1 df2 kept :
  kept ∈ merged df1 df2 →
  last (filter (is_tie kept) (df1 ++ df2)) = Some kept.
Proof.
  unfold merged. intros Hk.
  apply elem_of_stable_sort, drop_duplicates_last_last in Hk.
  rewrite <- (filter_stable_sort le_id_timestamp (is_tie kept)).
  - rewrite (list_filter_iff (is_tie kept)
      (λ r, timestamp kept = timestamp r
              ∧ event_id_cnty r = event_id_cnty kept)).
    + by apply (last_filter_filter _ (λ r, timestamp kept = timestamp r)).
    + intros r. unfold is_tie. split; intros [? ?]; done.
  - intros x y [Hx Hx'] [Hy Hy']. unfold le_id_timestamp.
    rewrite <- Hx, Hy, string_compare_refl. apply Z.leb_le. lia.
Qed.

Lemma last_app_elem_of {A} (l1 l2 : list A) x y :
  last (l1 ++ l2) = Some x → y ∈ l2 → last l2 = Some x.
Proof.
  intros Hlast Hy. destruct l2 as [|b l2] using rev_ind;
    [by apply elem_of_nil in Hy|].
  rewrite app_assoc, last_snoc in Hlast. by rewrite last_snoc.
Qed.


(** ** The outcomes of discovery *)

Lemma invalid_msg_not_too_few l : invalid_msg l ≠ too_few_msg.
Proof.
  intros E. apply (f_equal (String.get 0)) in E.
  unfold invalid_msg, invalid_header in E. by rewrite !append_cons in E.
Qed.

Lemma invalid_nil_candidates (names : list string) :
  filter is_invalid_name names = [] →
  ∀ n, n ∈ names → is_candidate n → is_Some (pattern_match n).
Proof.
  intros Hnil n Hn [Hcsv Ho].
  destruct (pattern_match n) as [k|] eqn:Hp; [by eexists|].
  exfalso. eapply (filter_nil_not_elem_of is_invalid_name); [exact Hnil| |exact Hn].
  by repeat split.
Qed.

Lemma candidates_matched_length (names : list string) :
  filter is_invalid_name names = [] →
  length (omap shard_entry (glob_csv names))
    = length (filter is_candidate names).
Proof.
  intros Hnil.
  rewrite <- (valid_files_names names) by (by apply invalid_nil_candidates).
  by rewrite length_fmap.
Qed.

Lemma discovery_ok_inv (names paths : list string) :
  _get_lexically_sorted_csv_paths names = Ok paths →
  filter is_invalid_name names = [] ∧
  (2 ≤ length (filter is_candidate names))%nat ∧
  paths = (stable_sort le_prefix (omap shard_entry (glob_csv names))).*2.
Proof.
  rewrite discovery_cases. cbn zeta. case_bool_decide as Hnil; [|done].
  rewrite (candidates_matched_length names Hnil).
  destruct (Nat.ltb_spec (length (filter is_candidate names)) 2); [done|].
  by intros [= <-].
Qed.

(** X1. Discovery fails with the too-few-files error exactly when no
    candidate name is invalid and fewer than two names are candidates (so
    an invalid name is reported first, also in a directory with less than
    two shards); it returns paths exactly when no candidate name is invalid
    and there are at least two, and then it returns as many paths as there
    are candidates. *)
Theorem discovery_outcomes (names : list string) :
  (_get_lexically_sorted_csv_paths names = Raise (RuntimeError too_few_msg) ↔
     filter is_invalid_name names = [] ∧
     (length (filter is_candidate names) < 2)%nat) ∧
  (∀ paths, _get_lexically_sorted_csv_paths names = Ok paths ↔
     filter is_invalid_name names = [] ∧
     (2 ≤ length (filter is_candidate names))%nat ∧
     paths = (stable_sort le_prefix (omap shard_entry (glob_csv names))).*2) ∧
  (∀ paths, _get_lexically_sorted_csv_paths names = Ok paths →
     length paths = length (filter is_candidate names)).
Proof.
  split; [|split].
  - rewrite discovery_cases. cbn zeta. case_bool_decide as Hnil.
    + rewrite (candidates_matched_length names Hnil).
      destruct (Nat.ltb_spec (length (filter is_candidate names)) 2).
      * split; [by intros _|done].
      * split; [done|intros [_ ?]; lia].
    + split; [|by intros [? _]]. intros E. exfalso.
      apply (invalid_msg_not_too_few (filter is_invalid_name names)).
      congruence.
  - intros paths. split; [apply discovery_ok_inv|].
    intros (Hnil & Hlen & ->). rewrite discovery_cases. cbn zeta.
    rewrite bool_decide_eq_true_2 by done.
    rewrite (candidates_matched_length names Hnil).
    destruct (Nat.ltb_spec (length (filter is_candidate names)) 2); [lia|done].
  - intros paths (Hnil & _ & ->)%discovery_ok_inv.
    rewrite length_fmap, (Permutation_length (stable_sort_Permutation _ _)).
    by apply candidates_matched_length.
Qed.

Lemma filter_snd_prefix (l : list (nat * string)) (k : nat) :
  (∀ e, e ∈ l → pattern_match e.2 = Some e.1) →
  filter (λ p, pattern_match p = Some k) (l.*2) = (filter (λ e, e.1 = k) l).*2.
Proof.
  induction l as [|e l IH]; intros Hl; [done|].
  assert (pattern_match e.2 = Some e.1) as He by (apply Hl; by left).
  rewrite fmap_cons. destruct (decide (e.1 = k)) as [<-|Hne].
  - rewrite !filter_cons_True by done. rewrite fmap_cons. f_equal.
    apply IH. intros e' He'. apply Hl. by right.
  - rewrite !filter_cons_False by congruence.
    apply IH. intros e' He'. apply Hl. by right.
Qed.

(** X3. The names that share a numeric prefix are returned in the order in
    which the directory lists them. *)
Theorem discovery_equal_prefix_order (names paths : list string) (k : nat) :
  _get_lexically_sorted_csv_paths names = Ok paths →
  filter (λ p, pattern_match p = Some k) paths
    = filter (λ p, pattern_match p = Some k) (filter is_candidate names).
Proof.
  intros (Hnil & _ & ->)%discovery_ok_inv.
  assert (∀ e, e ∈ omap shard_entry (glob_csv names) →
               pattern_match e.2 = Some e.1) as Hv.
  { intros [k' n] (_ & _ & Hp)%elem_of_valid_files. done. }
  rewrite filter_snd_prefix.
  - rewrite (filter_stable_sort le_prefix).
    + rewrite <- filter_snd_prefix by done.
      by rewrite valid_files_names by (by apply invalid_nil_candidates).
    + intros x y Hx Hy. unfold le_prefix. apply Nat.leb_le. lia.
  - intros e He%elem_of_stable_sort. by apply Hv.
Qed.

(** ** The merge as a function of the rows *)



Lemma le_date_id_antisym a b :
  le_date_id a b = true → le_date_id b a = true →
  event_date a = event_date b ∧ event_id_cnty a = event_id_cnty b.
Proof.
  unfold le_date_id. rewrite (Z.compare_antisym (event_date a)).
  destruct (Z.compare_spec (event_date a) (event_date b)) as [E|L|G];
    cbn; try done.
  intros H1 H2. split; [done|]. by apply String.leb_antisym.
Qed.

(** Without ties, the rows kept are the rows of greatest [timestamp] for
    their identifier. *)
Lemma elem_of_merged_latest df1 df2 x :
  (∀ r r', r ∈ df1 ++ df2 → r' ∈ df1 ++ df2 → is_tie r r' → r = r') →
  x ∈ merged df1 df2 ↔
  x ∈ df1 ++ df2 ∧
  ∀ r, r ∈ df1 ++ df2 → event_id_cnty r = event_id_cnty x →
       timestamp r ≤ timestamp x.
Proof.
  intros Hties. split.
  - intros Hx. split; [by apply elem_of_merged|].
    intros r Hr E. by eapply merged_max.
  - intros [Hx Hmax].
    destruct (merged_kept df1 df2 (event_id_cnty x))
      as (kept & Hf & Hid & Hin & Hts).
    { unfold ids. by apply list_elem_of_fmap_2. }
    assert (kept ∈ merged df1 df2) as Hk.
    { assert (kept ∈ filter (λ r, event_id_cnty r = event_id_cnty x)
                       (merged df1 df2)) as H by (rewrite Hf; by left).
      by apply list_elem_of_filter in H as [_ ?]. }
    assert (kept = x) as <-; [|done].
    apply Hties; [done..|]. split; [done|].
    specialize (Hts x Hx eq_refl). specialize (Hmax kept Hin Hid). lia.
Qed.

(** Without ties, the table a merge returns is fixed by the rows the two
    tables hold together. *)
Lemma merged_same_rows df1 df2 df1' df2' :
  df1 ++ df2 ≡ₚ df1' ++ df2' →
  (∀ r r', r ∈ df1 ++ df2 → r' ∈ df1 ++ df2 → is_tie r r' → r = r') →
  merged df1 df2 = merged df1' df2'.
Proof.
  intros Hperm Hties.
  assert (∀ r r', r ∈ df1' ++ df2' → r' ∈ df1' ++ df2' → is_tie r r' → r = r')
    as Hties'.
  { intros r r'. rewrite <- Hperm. apply Hties. }
  assert (merged df1 df2 ≡ₚ merged df1' df2') as Hm.
  { apply NoDup_Permutation.
    - eapply NoDup_fmap_1, merged_NoDup.
    - eapply NoDup_fmap_1, merged_NoDup.
    - intros x. rewrite !elem_of_merged_latest by done.
      by setoid_rewrite Hperm. }
  apply (StronglySorted_unique_strong (λ a b, le_date_id a b = true));
    [| |  |done].
  - intros x1 x2 H1 H2 H12 H21.
    destruct (le_date_id_antisym _ _ H12 H21) as [_ Hid].
    apply (NoDup_fmap_eq event_id_cnty (merged df1 df2));
      [apply merged_NoDup|done|by rewrite Hm|done].
  - apply stable_sort_sorted; [apply le_date_id_total|apply le_date_id_trans].
  - apply stable_sort_sorted; [apply le_date_id_total|apply le_date_id_trans].
Qed.

Lemma concat_two_dfs_typed_inv df1 df2 d :
  stored_exactly df1 df2 →
  _concat_two_dfs_typed df1 df2 = Ok d →
  frame d = merged (frame df1) (frame df2).
Proof.
  intros Hex. rewrite concat_two_dfs_typed_exact by done.
  destruct (_concat_two_dfs (frame df1) (frame df2)) as [m|e] eqn:E; [|done].
  apply concat_two_dfs_inv in E as (_ & _ & ->). by intros [= <-].
Qed.

(** X5. When [pd.concat] changes no [timestamp] (every cell is
    representable in the common dtype of the two columns, in both merges)
    and no two different rows of the two tables together tie (same
    identifier, same [timestamp]), the rows returned depend only on the
    rows the two tables hold together, not on how they are divided between
    the tables or ordered within them: two merges that succeed on the same
    rows return the same rows in the same order. *)
Theorem concat_two_dfs_order_insensitive (df1 df2 df1' df2' d d' : TypedFrame) :
  _concat_two_dfs_typed df1 df2 = Ok d →
  _concat_two_dfs_typed df1' df2' = Ok d' →
  stored_exactly df1 df2 → stored_exactly df1' df2' →
  frame df1 ++ frame df2 ≡ₚ frame df1' ++ frame df2' →
  (∀ r r', r ∈ frame df1 ++ frame df2 → r' ∈ frame df1 ++ frame df2 →
           is_tie r r' → r = r') →
  frame d = frame d'.
Proof.
  intros Hd Hd' Hex Hex' Hperm Hties.
  rewrite (concat_two_dfs_typed_inv _ _ _ Hex Hd).
  rewrite (concat_two_dfs_typed_inv _ _ _ Hex' Hd').
  by apply merged_same_rows.
Qed.

(** ** The fold as a whole *)

Lemma concat_loop_step debug first next_df rest :
  concat_loop debug first (next_df :: rest) =
  df ← _concat_two_dfs first next_df; concat_loop debug df rest.
Proof.
  cbn [concat_loop].
  destruct (_concat_two_dfs first next_df) as [df|e] eqn:E; [|done].
  cbn. rewrite (concat_two_dfs_no_duplicates _ _ _ E). cbn.
  by rewrite andb_false_r.
Qed.

(** The table the fold returns holds only rows of the shards, and for each
    row of any shard a row of the same event whose [timestamp] is at least
    as great. *)
Lemma concat_loop_rows debug first rest acc :
  concat_loop debug first rest = Ok acc →
  (∀ kept, kept ∈ acc → kept ∈ first ++ mjoin rest) ∧
  (∀ r, r ∈ first ++ mjoin rest →
     ∃ kept, kept ∈ acc ∧ event_id_cnty kept = event_id_cnty r ∧
             timestamp r ≤ timestamp kept).
Proof.
  revert first. induction rest as [|next_df rest IH]; intros first.
  - cbn. intros [= <-]. rewrite app_nil_r. split; [done|].
    intros r Hr. exists r. split; [done|]. split; [done|lia].
  - rewrite concat_loop_step.
    destruct (_concat_two_dfs first next_df) as [df|e] eqn:E; [|done].
    cbn [mbind result_bind]. intros Hacc.
    apply concat_two_dfs_inv in E as (_ & _ & ->).
    destruct (IH _ Hacc) as [Hsub Hall]. cbn [mjoin list_join].
    rewrite app_assoc. split.
    + intros kept [Hk|Hk]%Hsub%elem_of_app; rewrite elem_of_app;
        [left; by apply elem_of_merged|by right].
    + intros r [Hr|Hr]%elem_of_app.
      * destruct (merged_kept first next_df (event_id_cnty r))
          as (k1 & Hf & Hid & Hin & Hts).
        { unfold ids. by apply list_elem_of_fmap_2. }
        assert (k1 ∈ merged first next_df) as Hk1.
        { assert (k1 ∈ filter (λ x, event_id_cnty x = event_id_cnty r)
                         (merged first next_df)) as H by (rewrite Hf; by left).
          by apply list_elem_of_filter in H as [_ ?]. }
        destruct (Hall k1) as (kept & Hk & Hid' & Hts').
        { rewrite elem_of_app. by left. }
        exists kept. split; [done|]. split; [congruence|].
        specialize (Hts r Hr eq_refl). lia.
      * apply Hall. rewrite elem_of_app. by right.
Qed.


(** ** The failures of the normaliser *)

(** X8. The normaliser fails in exactly three ways, tested in this order:
    with [AttributeError] when the file has neither [iso3] nor [iso]; with
    the unmapped-codes error when it lacks [iso3] and a code of its [iso]
    column is not in the table; and otherwise with the missing-columns
    error, which names exactly the retained columns the file lacks ([iso3]
    is never among them, being there or derived), when there is one. *)
Theorem format_df_failures (ISO_MAP : gmap Z string) (df : RawFrame) e :
  _format_df ISO_MAP df = Raise e ↔
  (("iso3" ∉ columns df) ∧ ("iso" ∉ columns df) ∧ e = AttributeError "iso") ∨
  (("iso3" ∉ columns df) ∧ ("iso" ∈ columns df) ∧
   unknown_codes ISO_MAP df ≠ ∅ ∧
   e = ValueError (UnmappedIso (unknown_codes ISO_MAP df))) ∨
  (codes_ok ISO_MAP df ∧ missing_columns df ≠ ∅ ∧
   e = ValueError (MissingColumns (missing_columns df))).
Proof.
  rewrite format_df_cases. unfold codes_ok.
  repeat case_bool_decide; split; try done; try (intros [= <-]);
    intuition congruence.
Qed.

(** ** The loader *)

Lemma format_df_rows_unchanged (ISO_MAP : gmap Z string) df out :
  _format_df ISO_MAP df = Ok out →
  Forall2 (λ r o, o = with_iso3 (iso3 o) r) (rows df) out.
Proof.
  rewrite format_df_cases. repeat case_bool_decide; try done; intros [= <-].
  - apply Forall_Forall2_diag, Forall_forall. by intros [].
  - apply Forall2_fmap_r, Forall_Forall2_diag, Forall_forall. by intros [].
Qed.

Lemma load_and_format_df_inv ISO_MAP source_dir path out :
  _load_and_format_df ISO_MAP source_dir path = Ok out →
  ∃ raw, read_csv source_dir path = Ok raw ∧
    _format_df ISO_MAP (set_column "_orig_fname" (with_orig_fname path) raw)
      = Ok out.
Proof.
  unfold _load_and_format_df.
  destruct (read_csv source_dir path) as [raw|e]; [|done]. eauto.
Qed.

Lemma load_and_format_df_fname ISO_MAP source_dir path out r :
  _load_and_format_df ISO_MAP source_dir path = Ok out → r ∈ out →
  _orig_fname r = path.
Proof.
  intros (raw & _ & Hf%format_df_rows_unchanged)%load_and_format_df_inv Hr.
  cbn [set_column rows] in Hf. apply Forall2_fmap_l in Hf.
  apply list_elem_of_lookup in Hr as [i Hi].
  destruct (Forall2_lookup_r _ _ _ _ _ Hf Hi) as (r0 & _ & ->). done.
Qed.

(** X9. A table that has been loaded has one row for each row of the file,
    in the order of the file; a row differs from the row of the file at
    most in [iso3] and in [_orig_fname], and [_orig_fname] is the name of
    the file in every row, whatever the file says in a column of that
    name. *)
Theorem load_and_format_df_rows ISO_MAP source_dir path out :
  _load_and_format_df ISO_MAP source_dir path = Ok out →
  ∃ raw,
    read_csv source_dir path = Ok raw ∧
    Forall2 (λ r o, o = with_iso3 (iso3 o) (with_orig_fname path r))
            (rows raw) out ∧
    Forall (λ o, _orig_fname o = path) out.
Proof.
  intros Hload.
  destruct (load_and_format_df_inv _ _ _ _ Hload) as (raw & Hraw & Hf).
  exists raw. split; [done|]. split.
  - apply format_df_rows_unchanged in Hf. cbn [set_column rows] in Hf.
    by apply Forall2_fmap_l in Hf.
  - apply Forall_forall. intros r Hr.
    by eapply load_and_format_df_fname.
Qed.


(** ** Whole runs: what the table returned holds *)

Lemma mapM_Ok_Forall2 {A B} (f : A → result B) l k :
  mapM f l = Ok k → Forall2 (λ x y, f x = Ok y) l k.
Proof.
  revert k. induction l as [|a l IH]; intros k; cbn.
  - intros [= <-]. constructor.
  - destruct (f a) as [b|e] eqn:E; [|done]. cbn.
    destruct (mapM f l) as [bs|e]; [|done]. cbn.
    intros [= <-]. constructor; [done|by apply IH].
Qed.

Lemma mapM_Raise {A B} (f : A → result B) l e :
  mapM f l = Raise e → ∃ x, x ∈ l ∧ f x = Raise e.
Proof.
  induction l as [|a l IH]; cbn; [done|].
  destruct (f a) as [b|e'] eqn:E; cbn.
  - destruct (mapM f l) as [bs|e']; cbn; [done|].
    intros [= <-]. destruct IH as (x & Hx & Hf); [done|].
    exists x. split; [by right|done].
  - intros [= <-]. exists a. split; [by left|done].
Qed.

Lemma mapM_ext_in {A B} (f g : A → result B) l :
  (∀ x, x ∈ l → f x = g x) → mapM f l = mapM g l.
Proof.
  induction l as [|a l IH]; intros H; [done|]. cbn.
  rewrite (H a) by (by left). rewrite IH; [done|].
  intros x Hx. apply H. by right.
Qed.

(** The stages of a run that returns a table. *)
Lemma concat_inv ISO_MAP debug source_dir df :
  concat ISO_MAP debug source_dir = Ok df →
  ∃ shard_paths first rest,
    _get_lexically_sorted_csv_paths (entries source_dir) = Ok shard_paths ∧
    Forall2 (λ path shard,
               _load_and_format_df ISO_MAP source_dir path = Ok shard)
            shard_paths (first :: rest) ∧
    concat_loop debug first rest = Ok df.
Proof.
  unfold concat.
  destruct (_get_lexically_sorted_csv_paths _) as [shard_paths|e] eqn:Hp;
    [|done].
  cbn. destruct (mapM _ shard_paths) as [dataframes|e] eqn:Hl; [|done].
  cbn. apply mapM_Ok_Forall2 in Hl.
  destruct dataframes as [|first rest]; [done|]. eauto 10.
Qed.

Lemma sorted_paths_candidates (names paths : list string) :
  _get_lexically_sorted_csv_paths names = Ok paths →
  paths ≡ₚ filter is_candidate names.
Proof.
  intros (Hnil & _ & ->)%discovery_ok_inv.
  rewrite stable_sort_Permutation.
  by rewrite valid_files_names by (by apply invalid_nil_candidates).
Qed.

(** The table a run returns holds only rows of the candidate files, and
    for each of their rows a row of the same event whose [timestamp] is at
    least as great, when the cells are compared as they are. *)
Lemma concat_rows ISO_MAP debug source_dir df :
  concat ISO_MAP debug source_dir = Ok df →
  (∀ r, r ∈ df →
     _orig_fname r ∈ entries source_dir ∧ is_candidate (_orig_fname r) ∧
     ∃ shard,
       _load_and_format_df ISO_MAP source_dir (_orig_fname r) = Ok shard ∧
       r ∈ shard) ∧
  (∀ path, path ∈ entries source_dir → is_candidate path →
     ∃ shard,
       _load_and_format_df ISO_MAP source_dir path = Ok shard ∧
       ∀ r, r ∈ shard →
         ∃ kept, kept ∈ df ∧ event_id_cnty kept = event_id_cnty r ∧
                 timestamp r ≤ timestamp kept).
Proof.
  intros (paths & first & rest & Hp & Hl & Hrun)%concat_inv.
  pose proof (sorted_paths_candidates _ _ Hp) as Hperm.
  destruct (concat_loop_rows _ _ _ _ Hrun) as [Hsub Hall].
  change (first ++ mjoin rest) with (mjoin (first :: rest)) in Hsub, Hall.
  split.
  - intros r Hr. apply Hsub, list_elem_of_join in Hr as (shard & Hr & Hs).
    apply list_elem_of_lookup in Hs as [i Hi].
    destruct (Forall2_lookup_r _ _ _ _ _ Hl Hi) as (path & Hpath & Hload).
    rewrite (load_and_format_df_fname _ _ _ _ _ Hload Hr).
    apply list_elem_of_lookup_2 in Hpath. rewrite Hperm in Hpath.
    apply list_elem_of_filter in Hpath as [? ?]. eauto.
  - intros path Hin Hc.
    assert (path ∈ paths) as Hpath.
    { rewrite Hperm. by apply list_elem_of_filter. }
    apply list_elem_of_lookup in Hpath as [i Hi].
    destruct (Forall2_lookup_l _ _ _ _ _ Hl Hi) as (shard & Hs & Hload).
    exists shard. split; [done|]. intros r Hr. apply Hall.
    apply list_elem_of_join. exists shard.
    split; [done|]. by eapply list_elem_of_lookup_2.
Qed.

(** When no cast changes a cell, the run with the dtypes is the run on the
    rows as they are. *)
Lemma concat_loop_typed_exact debug first rest d :
  small_timestamps (frame first) →
  Forall (λ t, small_timestamps (frame t)) rest →
  concat_loop_typed debug first rest = Ok d →
  concat_loop debug (frame first) (frame <$> rest) = Ok (frame d).
Proof.
  revert first. induction rest as [|next_df rest IH]; intros first Hf Hr.
  - cbn. by intros [= <-].
  - apply Forall_cons in Hr as [Hn Hr]. cbn [concat_loop_typed fmap list_fmap concat_loop].
    rewrite concat_two_dfs_typed_exact
      by (apply stored_exactly_small, Forall_app; done).
    destruct (_concat_two_dfs (frame first) (frame next_df)) as [m|e] eqn:E;
      [|done].
    cbn [mbind result_bind frame].
    destruct (debug && _); [done|].
    intros Hloop. apply IH in Hloop; [done| |done].
    cbn [frame]. apply concat_two_dfs_inv in E as (_ & _ & ->).
    apply Forall_forall. intros r Hr'%elem_of_merged.
    revert r Hr'. apply Forall_forall, Forall_app. done.
Qed.

Lemma mapM_load_typed ISO_MAP source_dir read_dtype paths
    (tdfs : list TypedFrame) :
  mapM (_load_and_format_df_typed ISO_MAP source_dir read_dtype) paths = Ok tdfs →
  mapM (_load_and_format_df ISO_MAP source_dir) paths = Ok (frame <$> tdfs).
Proof.
  revert tdfs. induction paths as [|p paths IH]; intros tdfs; cbn.
  - by intros [= <-].
  - unfold _load_and_format_df_typed in *.
    destruct (_load_and_format_df ISO_MAP source_dir p) as [df|e];
      cbn; [|done].
    destruct (mapM _ paths) as [ts|e] eqn:E; cbn; [|done].
    intros [= <-]. by rewrite (IH _ eq_refl).
Qed.

Lemma concat_typed_exact ISO_MAP debug source_dir read_dtype d :
  timestamps_exact ISO_MAP source_dir →
  concat_typed ISO_MAP debug source_dir read_dtype = Ok d →
  concat ISO_MAP debug source_dir = Ok (frame d).
Proof.
  unfold timestamps_exact, concat_typed, concat. intros Hex.
  destruct (_get_lexically_sorted_csv_paths _) as [paths|e] eqn:Hp; [|done].
  cbn [mbind result_bind].
  destruct (mapM _ paths) as [tdfs|e] eqn:Hl; [|done].
  cbn [mbind result_bind].
  pose proof (mapM_load_typed _ _ _ _ _ Hl) as Hl'. rewrite Hl'.
  cbn [mbind result_bind].
  assert (Forall (λ t, small_timestamps (frame t)) tdfs) as Hsmall.
  { apply Forall_fmap. apply mapM_Ok_Forall2 in Hl'.
    apply Forall_forall. intros df Hdf.
    apply list_elem_of_lookup in Hdf as [i Hi].
    destruct (Forall2_lookup_r _ _ _ _ _ Hl' Hi) as (path & Hpath & Hload).
    apply list_elem_of_lookup_2 in Hpath.
    rewrite (sorted_paths_candidates _ _ Hp) in Hpath.
    pose proof (proj1 (Forall_forall _ _) Hex path Hpath) as H.
    cbn beta in H. by rewrite Hload in H. }
  destruct tdfs as [|first rest]; [done|].
  apply Forall_cons in Hsmall as [Hf Hr]. cbn [fmap list_fmap].
  by apply concat_loop_typed_exact.
Qed.

(** X10. When every edit time of every candidate file is at most [2 ^ 53]
    in magnitude (so that each dtype of the column holds it as it is and
    the casts of [pd.concat] change no cell): in the table a run returns,
    every row comes from a shard of the directory: its [_orig_fname] is the
    name of a candidate file, and the row is a row of that file as loaded.
    Conversely every row of every shard is represented: the table holds a
    row of the same event whose [timestamp] is at least as great. *)
Theorem concat_rows_of_shards ISO_MAP debug source_dir read_dtype df :
  timestamps_exact ISO_MAP source_dir →
  concat_typed ISO_MAP debug source_dir read_dtype = Ok df →
  (∀ r, r ∈ frame df →
     _orig_fname r ∈ entries source_dir ∧ is_candidate (_orig_fname r) ∧
     ∃ shard,
       _load_and_format_df ISO_MAP source_dir (_orig_fname r) = Ok shard ∧
       r ∈ shard) ∧
  (∀ path, path ∈ entries source_dir → is_candidate path →
     ∃ shard,
       _load_and_format_df ISO_MAP source_dir path = Ok shard ∧
       ∀ r, r ∈ shard →
         ∃ kept, kept ∈ frame df ∧ event_id_cnty kept = event_id_cnty r ∧
                 timestamp r ≤ timestamp kept).
Proof.
  intros Hex Hrun. apply concat_rows with (debug := debug).
  by eapply concat_typed_exact.
Qed.

(** ** Whole runs: how they fail *)

Lemma concat_two_dfs_errors df1 df2 e :
  _concat_two_dfs df1 df2 = Raise e →
  e = RuntimeError empty_msg ∨ e = RuntimeError overlap_msg.
Proof.
  unfold _concat_two_dfs. destruct (_ || _); [intros [= <-]; by left|].
  destruct (date_lt _ _); [intros [= <-]; by right|done].
Qed.

Lemma concat_loop_errors debug first rest e :
  concat_loop debug first rest = Raise e →
  e = RuntimeError empty_msg ∨ e = RuntimeError overlap_msg.
Proof.
  revert first. induction rest as [|next_df rest IH]; intros first; [done|].
  rewrite concat_loop_step.
  destruct (_concat_two_dfs first next_df) as [df|e'] eqn:E.
  - apply IH.
  - intros [= <-]. by eapply concat_two_dfs_errors.
Qed.

(** X11. Up to the writing of the output file, a run fails only with the
    error of discovery, with the error of loading one of the candidate
    files, or with one of the two errors of the merge; the assertion of the
    loop and the access to the first table never fail. *)
Theorem concat_errors ISO_MAP debug source_dir e :
  concat ISO_MAP debug source_dir = Raise e →
  _get_lexically_sorted_csv_paths (entries source_dir) = Raise e ∨
  (∃ path, path ∈ entries source_dir ∧ is_candidate path ∧
           _load_and_format_df ISO_MAP source_dir path = Raise e) ∨
  e = RuntimeError empty_msg ∨ e = RuntimeError overlap_msg.
Proof.
  unfold concat.
  destruct (_get_lexically_sorted_csv_paths _) as [shard_paths|e'] eqn:Hp;
    [|intros [= <-]; by left].
  cbn. destruct (mapM _ shard_paths) as [dataframes|e'] eqn:Hl.
  - cbn. pose proof (sorted_paths_length _ _ Hp) as Hlen.
    apply mapM_length in Hl.
    destruct dataframes as [|first rest]; [cbn in Hl; lia|].
    intros Hrun%concat_loop_errors. tauto.
  - cbn. intros [= <-]. right; left.
    apply mapM_Raise in Hl as (path & Hin & Hload).
    rewrite (sorted_paths_candidates _ _ Hp) in Hin.
    apply list_elem_of_filter in Hin as [? ?]. eauto.
Qed.

(** ** Whole runs: what they depend on *)

Lemma glob_csv_candidates (names : list string) :
  filter (λ n, is_output n = false) (glob_csv names)
    = filter is_candidate names.
Proof.
  unfold glob_csv. rewrite list_filter_filter. apply list_filter_iff.
  intros n. unfold is_candidate. tauto.
Qed.

Lemma filter_candidate_invalid (names : list string) :
  filter is_invalid_name (filter is_candidate names)
    = filter is_invalid_name names.
Proof.
  rewrite list_filter_filter. apply list_filter_iff.
  intros n. unfold is_invalid_name, is_candidate. tauto.
Qed.

Lemma filter_candidate_idemp (names : list string) :
  filter is_candidate (filter is_candidate names) = filter is_candidate names.
Proof. rewrite list_filter_filter. apply list_filter_iff. tauto. Qed.

(** Discovery looks at the candidate names only. *)
Lemma discovery_candidates (names : list string) :
  _get_lexically_sorted_csv_paths (filter is_candidate names)
    = _get_lexically_sorted_csv_paths names.
Proof.
  rewrite !discovery_cases. cbn zeta. rewrite filter_candidate_invalid.
  rewrite <- (omap_shard_entry_not_output (glob_csv names)).
  rewrite <- (omap_shard_entry_not_output (glob_csv (filter _ _))).
  by rewrite !glob_csv_candidates, filter_candidate_idemp.
Qed.

(** X12. A run depends on the directory only through its candidate names,
    in the order they are listed, and through the contents of these files:
    other entries, such as the output file of an earlier run or files that
    are no CSV files, and what they hold, do not change its outcome. *)
Theorem concat_depends_on_candidates ISO_MAP debug dir1 dir2 :
  filter is_candidate (entries dir1) = filter is_candidate (entries dir2) →
  (∀ path, path ∈ entries dir1 → is_candidate path →
           read_csv dir1 path = read_csv dir2 path) →
  concat ISO_MAP debug dir1 = concat ISO_MAP debug dir2.
Proof.
  intros Hnames Hfiles. unfold concat.
  rewrite <- (discovery_candidates (entries dir1)), Hnames,
    discovery_candidates.
  destruct (_get_lexically_sorted_csv_paths (entries dir2))
    as [shard_paths|e] eqn:Hp; [|done].
  cbn [mbind result_bind].
  rewrite (mapM_ext_in (_load_and_format_df ISO_MAP dir1)
                       (_load_and_format_df ISO_MAP dir2)); [done|].
  intros path Hin. unfold _load_and_format_df.
  rewrite Hfiles; [done| |].
  - rewrite (sorted_paths_candidates _ _ Hp), <- Hnames in Hin.
    by apply list_elem_of_filter in Hin as [_ ?].
  - rewrite (sorted_paths_candidates _ _ Hp) in Hin.
    by apply list_elem_of_filter in Hin as [? _].
Qed.

Lemma valid_files_prefixes (names : list string) :
  (omap shard_entry (glob_csv names)).*1 = prefixes names.
Proof.
  unfold prefixes, glob_csv. induction names as [|n names IH]; [done|].
  destruct (decide (is_candidate n)) as [Hc|Hc].
  - rewrite (filter_cons_True is_candidate) by done. destruct Hc as [Hcsv Ho].
    rewrite filter_cons_True by done. cbn [omap list_omap].
    unfold shard_entry at 1. rewrite Ho.
    destruct (pattern_match n); cbn; [f_equal|]; apply IH.
  - rewrite (filter_cons_False is_candidate) by done.
    destruct (ends_with ".csv" n) eqn:Hcsv.
    + rewrite filter_cons_True by done. cbn [omap list_omap].
      unfold shard_entry at 1. destruct (is_output n) eqn:Ho; [apply IH|].
      destruct Hc. by split.
    + rewrite filter_cons_False by congruence. apply IH.
Qed.

(** With valid names of distinct prefixes, discovery does not depend on the
    listing order. *)
Lemma discovery_Permutation (names names' : list string) :
  names' ≡ₚ names →
  filter is_invalid_name names = [] →
  NoDup (prefixes names) →
  _get_lexically_sorted_csv_paths names'
    = _get_lexically_sorted_csv_paths names.
Proof.
  intros Hperm Hnil Hnd. rewrite !discovery_cases. cbn zeta.
  assert (filter is_invalid_name names' = []) as ->.
  { apply Permutation_nil. by rewrite Hperm, Hnil. }
  rewrite Hnil.
  assert (omap shard_entry (glob_csv names')
            ≡ₚ omap shard_entry (glob_csv names)) as Hv.
  { unfold glob_csv. by rewrite Hperm. }
  rewrite (Permutation_length Hv).
  destruct (_ <? _)%nat; [done|]. cbn. do 2 f_equal.
  apply (StronglySorted_unique_strong (λ a b, le_prefix a b = true)).
  - intros x1 x2 H1 H2 H12 H21.
    apply (NoDup_fmap_eq fst (omap shard_entry (glob_csv names))).
    + by rewrite valid_files_prefixes.
    + apply elem_of_stable_sort in H1. by rewrite <- Hv.
    + by apply elem_of_stable_sort in H2.
    + unfold le_prefix in *. apply Nat.leb_le in H12, H21. lia.
  - apply stable_sort_sorted; [apply le_prefix_total|apply le_prefix_trans].
  - apply stable_sort_sorted; [apply le_prefix_total|apply le_prefix_trans].
  - by rewrite !stable_sort_Permutation.
Qed.

(** X13. When every candidate name of the directory is valid and no two
    have the same numeric prefix, the outcome of a run is the same for
    every order in which the file system lists the directory. *)
Theorem concat_listing_order ISO_MAP debug source_dir entries' :
  entries' ≡ₚ entries source_dir →
  filter is_invalid_name (entries source_dir) = [] →
  NoDup (prefixes (entries source_dir)) →
  concat ISO_MAP debug
    {| entries := entries'; read_csv := read_csv source_dir |}
  = concat ISO_MAP debug source_dir.
Proof.
  intros Hperm Hnil Hnd. unfold concat. cbn [entries].
  by rewrite (discovery_Permutation _ _ Hperm Hnil Hnd).
Qed.

(** ** Merging a shard again *)

Lemma merged_eq_of_Permutation df1 df2 df1' df2' :
  merged df1 df2 ≡ₚ merged df1' df2' → merged df1 df2 = merged df1' df2'.
Proof.
  intros Hm.
  apply (StronglySorted_unique_strong (λ a b, le_date_id a b = true));
    [| | |done].
  - intros x1 x2 H1 H2 H12 H21.
    destruct (le_date_id_antisym _ _ H12 H21) as [_ Hid].
    apply (NoDup_fmap_eq event_id_cnty (merged df1 df2));
      [apply merged_NoDup|done|by rewrite Hm|done].
  - apply stable_sort_sorted; [apply le_date_id_total|apply le_date_id_trans].
  - apply stable_sort_sorted; [apply le_date_id_total|apply le_date_id_trans].
Qed.

Lemma merged_merged_subset df1 df2 x :
  x ∈ merged (merged df1 df2) df2 → x ∈ merged df1 df2.
Proof.
  intros Hx. pose proof (elem_of_merged _ _ _ Hx) as [Hd|H2]%elem_of_app;
    [done|].
  destruct (merged_kept df1 df2 (event_id_cnty x))
    as (k & Hf & Hid & Hin & Hts).
  { unfold ids. apply list_elem_of_fmap_2. rewrite elem_of_app. by right. }
  assert (k ∈ merged df1 df2) as Hk.
  { assert (k ∈ filter (λ r, event_id_cnty r = event_id_cnty x)
                  (merged df1 df2)) as H by (rewrite Hf; by left).
    by apply list_elem_of_filter in H as [_ ?]. }
  assert (is_tie k x) as Htie.
  { split; [done|].
    assert (timestamp x ≤ timestamp k)
      by (apply Hts; [rewrite elem_of_app; by right|done]).
    assert (timestamp k ≤ timestamp x).
    { apply (merged_max (merged df1 df2) df2 k x); [done| |done].
      rewrite elem_of_app. by left. }
    lia. }
  assert (last (filter (is_tie k) df2) = Some k) as Hlk.
  { pose proof (merged_last_tie _ _ _ Hk) as Hl. rewrite filter_app in Hl.
    apply (last_app_elem_of _ _ _ x) in Hl; [done|].
    by apply list_elem_of_filter. }
  assert (last (filter (is_tie x) df2) = Some x) as Hlx.
  { pose proof (merged_last_tie _ _ _ Hx) as Hl. rewrite filter_app in Hl.
    apply (last_app_elem_of _ _ _ x) in Hl; [done|].
    apply list_elem_of_filter. by split. }
  rewrite (list_filter_iff (is_tie x) (is_tie k)) in Hlx.
  - rewrite Hlk in Hlx. by injection Hlx as <-.
  - intros r. destruct Htie as [E1 E2]. unfold is_tie. rewrite E1, E2. done.
Qed.

(** X7. Merging a shard into a table into which it has been merged already
    changes nothing: when the second merge passes its checks, it returns
    the table it was given. *)
Theorem concat_two_dfs_remerge df1 df2 d d' :
  _concat_two_dfs df1 df2 = Ok d →
  _concat_two_dfs d df2 = Ok d' →
  d' = d.
Proof.
  intros (_ & _ & ->)%concat_two_dfs_inv (_ & _ & ->)%concat_two_dfs_inv.
  apply merged_eq_of_Permutation, NoDup_Permutation.
  - eapply NoDup_fmap_1, merged_NoDup.
  - eapply NoDup_fmap_1, merged_NoDup.
  - intros x. split; [apply merged_merged_subset|]. intros Hx.
    assert (event_id_cnty x ∈ ids (merged (merged df1 df2) df2))
      as (y & Hid & Hy)%list_elem_of_fmap.
    { apply ids_merged. unfold ids. apply list_elem_of_fmap_2.
      rewrite elem_of_app. by left. }
    assert (y = x) as <-; [|done].
    apply (NoDup_fmap_eq event_id_cnty (merged df1 df2));
      [apply merged_NoDup|by apply merged_merged_subset|done|done].
Qed.


(** ** Which files load *)

Lemma format_df_ok (ISO_MAP : gmap Z string) (df : RawFrame) :
  (∃ out, _format_df ISO_MAP df = Ok out) ↔
  codes_ok ISO_MAP df ∧ missing_columns df = ∅.
Proof.
  rewrite format_df_cases. unfold codes_ok.
  destruct (decide ("iso3" ∈ columns df)) as [H3|H3].
  - rewrite (bool_decide_eq_true_2 _ H3). case_bool_decide as Hm.
    + split; [by intros [out ?]|]. by intros [_ ?].
    + split; [|by eauto]. intros _. split; [by left|].
      destruct (decide (missing_columns df = ∅)); done.
  - rewrite (bool_decide_eq_false_2 _ H3).
    destruct (decide ("iso" ∈ columns df)) as [Hi|Hi].
    + rewrite (bool_decide_eq_true_2 _ Hi). case_bool_decide as Hu.
      * split; [by intros [out ?]|]. intros [[?|[_ ?]] _]; done.
      * assert (unknown_codes ISO_MAP df = ∅) as Hu'
          by (destruct (decide (unknown_codes ISO_MAP df = ∅)); done).
        case_bool_decide as Hm.
        -- split; [by intros [out ?]|]. by intros [_ ?].
        -- split; [|by eauto]. intros _. split; [by right|].
           destruct (decide (missing_columns df = ∅)); done.
    + rewrite (bool_decide_eq_false_2 _ Hi).
      split; [by intros [out ?]|]. intros [[?|[? _]] _]; done.
Qed.

Lemma set_orig_fname_columns path raw c :
  c ∈ columns (set_column "_orig_fname" (with_orig_fname path) raw) ↔
  c ∈ columns raw ∨ c = "_orig_fname".
Proof.
  unfold set_column. cbn [columns]. destruct (has_column _ raw) eqn:E.
  - apply has_column_true in E. split; [by left|]. by intros [?| ->].
  - rewrite elem_of_app, list_elem_of_singleton. done.
Qed.

Lemma set_orig_fname_codes_ok ISO_MAP path raw :
  codes_ok ISO_MAP (set_column "_orig_fname" (with_orig_fname path) raw) ↔
  codes_ok ISO_MAP raw.
Proof.
  unfold codes_ok. rewrite !set_orig_fname_columns.
  assert (unknown_codes ISO_MAP
            (set_column "_orig_fname" (with_orig_fname path) raw)
          = unknown_codes ISO_MAP raw) as ->.
  { unfold unknown_codes, set_column. cbn [rows].
    by rewrite <- list_fmap_compose. }
  assert ("iso3" ≠ "_orig_fname") as H3 by done.
  assert ("iso" ≠ "_orig_fname") as Hi by done.
  tauto.
Qed.

(** X14. A file loads exactly when [pd.read_csv] reads it, its country
    codes can be normalised (it has [iso3], or it has [iso] and the table
    maps all its codes), and it has every retained column other than
    [iso3] and [_orig_fname], which the loader supplies. *)
Theorem load_and_format_df_succeeds ISO_MAP source_dir path :
  (∃ out, _load_and_format_df ISO_MAP source_dir path = Ok out) ↔
  ∃ raw,
    read_csv source_dir path = Ok raw ∧
    codes_ok ISO_MAP raw ∧
    ∀ c, c ∈ RETAINED_COLS →
         c ∈ columns raw ∨ c = "iso3" ∨ c = "_orig_fname".
Proof.
  unfold _load_and_format_df.
  destruct (read_csv source_dir path) as [raw|e]; cbn [mbind result_bind].
  - rewrite format_df_ok, set_orig_fname_codes_ok, missing_columns_empty.
    setoid_rewrite set_orig_fname_columns. split.
    + intros [Hc Hm]. exists raw. split; [done|]. split; [done|].
      intros c Hin. destruct (Hm c Hin) as [[?|?]|?]; auto.
    + intros (raw' & [= <-] & Hc & Hm). split; [done|].
      intros c Hin. destruct (Hm c Hin) as [?|[?|?]]; auto.
  - split; [by intros [out [=]]|]. by intros (raw & [=] & _).
Qed.

(** ** Empty shards and gaps in the fold *)

Lemma merged_nonempty df1 df2 : df1 ++ df2 ≠ [] → merged df1 df2 ≠ [].
Proof.
  intros Hne Hnil. destruct (df1 ++ df2) as [|r u] eqn:Hu; [done|].
  assert (event_id_cnty r ∈ ids (merged df1 df2)) as Hin.
  { apply ids_merged. rewrite Hu. unfold ids. rewrite fmap_cons. by left. }
  rewrite Hnil in Hin. by apply elem_of_nil in Hin.
Qed.

Lemma concat_two_dfs_nonempty df1 df2 df :
  _concat_two_dfs df1 df2 = Ok df → df ≠ [].
Proof.
  intros (H1 & _ & ->)%concat_two_dfs_inv. apply merged_nonempty.
  by destruct df1.
Qed.

Lemma concat_two_dfs_empty_error df1 df2 :
  _concat_two_dfs df1 df2 = Raise (RuntimeError empty_msg) ↔
  df1 = [] ∨ df2 = [].
Proof.
  unfold _concat_two_dfs. destruct df1 as [|a df1]; [by split; auto|].
  destruct df2 as [|b df2]; [by split; auto|]. cbn [is_empty orb].
  split; [|by intros [|]]. by destruct (date_lt _ _).
Qed.

(** X15. The fold over at least two tables never returns a table when one
    of them has no rows; and it fails with the empty-shard error only when
    one of them has no rows: a table that has been merged is never
    empty. *)
Theorem concat_loop_empty_shard debug first rest :
  (first = [] ∨ [] ∈ rest → rest ≠ [] →
     ∀ acc, concat_loop debug first rest ≠ Ok acc) ∧
  (concat_loop debug first rest = Raise (RuntimeError empty_msg) →
     first = [] ∨ [] ∈ rest).
Proof.
  split.
  - revert first. induction rest as [|next_df rest IH]; intros first;
      [done|].
    intros He _ acc. rewrite concat_loop_step.
    destruct (_concat_two_dfs first next_df) as [df|e] eqn:E; [|done].
    cbn [mbind result_bind].
    pose proof (concat_two_dfs_inv _ _ _ E) as (H1 & H2 & _).
    destruct He as [->|[<-|He]%elem_of_cons]; [done|done|].
    apply IH; [by right|]. intros ->. by apply elem_of_nil in He.
  - revert first. induction rest as [|next_df rest IH]; intros first;
      [done|].
    rewrite concat_loop_step.
    destruct (_concat_two_dfs first next_df) as [df|e] eqn:E;
      cbn [mbind result_bind].
    + intros [Hd|Hr]%IH; [|right; by right].
      by apply concat_two_dfs_nonempty in E.
    + intros [= ->]. apply concat_two_dfs_empty_error in E as [->| ->];
        [by left|right; by left].
Qed.

Lemma concat_two_dfs_touch df1 df2 df :
  _concat_two_dfs df1 df2 = Ok df →
  ∃ r1 r2, r1 ∈ df1 ∧ r2 ∈ df2 ∧ event_date r2 ≤ event_date r1.
Proof.
  unfold _concat_two_dfs.
  destruct df1 as [|a df1]; [done|]. destruct df2 as [|b df2]; [done|].
  cbn [is_empty orb].
  destruct (series_max_spec (event_date <$> a :: df1)) as (m1 & -> & H1 & _);
    [done|].
  destruct (series_min_spec (event_date <$> b :: df2)) as (m2 & -> & H2 & _);
    [done|].
  cbn [date_lt]. destruct (Z.ltb_spec m1 m2); [done|]. intros _.
  apply list_elem_of_fmap in H1 as (r1 & -> & Hr1).
  apply list_elem_of_fmap in H2 as (r2 & -> & Hr2). eauto 10.
Qed.

(** X16. What the contiguity check guarantees of a fold that returns a
    table: every shard after the first has a row dated no later than some
    row of the shards before it. *)
Theorem concat_loop_no_gap debug first pre next_df post acc :
  concat_loop debug first (pre ++ next_df :: post) = Ok acc →
  ∃ r r', r ∈ first ++ mjoin pre ∧ r' ∈ next_df ∧
          event_date r' ≤ event_date r.
Proof.
  rewrite concat_loop_app.
  destruct (concat_loop debug first pre) as [a|e] eqn:Ha; [|done].
  cbn [mbind result_bind]. rewrite concat_loop_step.
  destruct (_concat_two_dfs a next_df) as [df|e] eqn:E; [|done].
  intros _. apply concat_two_dfs_touch in E as (r1 & r2 & Hr1 & Hr2 & Hle).
  destruct (concat_loop_rows _ _ _ _ Ha) as [Hsub _].
  exists r1, r2. split; [by apply Hsub|done].
Qed.

(** ** The further properties at the fixtures *)

Example format_df_incomplete :
  _format_df TEST_ISO_MAP mock_incomplete
    = Raise (ValueError (MissingColumns {[ "year"; "notes" ]})).
Proof. vm_compute. reflexivity. Qed.

Example format_df_no_codes :
  _format_df TEST_ISO_MAP mock_no_codes = Raise (AttributeError "iso").
Proof. vm_compute. reflexivity. Qed.

Example discovery_one_shard :
  _get_lexically_sorted_csv_paths ["01-acled.csv"; "consolidated_acled.csv"]
    = Raise (RuntimeError too_few_msg).
Proof. vm_compute. reflexivity. Qed.

Lemma discovery_equal_prefix_order_witness :
  _get_lexically_sorted_csv_paths tie_names
    = Ok ["01-acled_z.csv"; "02-acled_b.csv"; "02-acled_a.csv"] ∧
  filter (λ p, pattern_match p = Some 2%nat)
         ["01-acled_z.csv"; "02-acled_b.csv"; "02-acled_a.csv"]
    = filter (λ p, pattern_match p = Some 2%nat)
             (filter is_candidate tie_names).
Proof.
  assert (_get_lexically_sorted_csv_paths tie_names
            = Ok ["01-acled_z.csv"; "02-acled_b.csv"; "02-acled_a.csv"])
    as Hok by (vm_compute; reflexivity).
  split; [assumption|].
  apply (discovery_equal_prefix_order tie_names _ 2%nat); assumption.
Defined.


Lemma concat_two_dfs_order_insensitive_witness :
  _concat_two_dfs_typed typed1 typed2
    = Ok {| timestamp_dtype := float64; frame := consolidated12 |} ∧
  _concat_two_dfs_typed typed2 typed1
    = Ok {| timestamp_dtype := float64; frame := consolidated12 |} ∧
  stored_exactly typed1 typed2 ∧ stored_exactly typed2 typed1 ∧
  frame typed1 ++ frame typed2 ≡ₚ frame typed2 ++ frame typed1 ∧
  consolidated12 = consolidated12.
Proof.
  assert (_concat_two_dfs_typed typed1 typed2
            = Ok {| timestamp_dtype := float64; frame := consolidated12 |})
    as H12 by (vm_compute; reflexivity).
  assert (_concat_two_dfs_typed typed2 typed1
            = Ok {| timestamp_dtype := float64; frame := consolidated12 |})
    as H21 by (vm_compute; reflexivity).
  assert (stored_exactly typed1 typed2) as Hex by compute_done.
  assert (stored_exactly typed2 typed1) as Hex' by compute_done.
  assert (frame typed1 ++ frame typed2 ≡ₚ frame typed2 ++ frame typed1)
    as Hperm by apply Permutation_app_comm.
  repeat (split; [assumption|]).
  apply (concat_two_dfs_order_insensitive typed1 typed2 typed2 typed1
           _ _ H12 H21 Hex Hex' Hperm).
  intros r r' Hr Hr'. revert r' Hr'.
  apply (proj1 (Forall_forall (λ r', is_tie r r' → r = r') _)).
  revert r Hr.
  apply (proj1 (Forall_forall
    (λ r, Forall (λ r', is_tie r r' → r = r')
                 (frame typed1 ++ frame typed2)) _)).
  compute_done.
Defined.


Lemma concat_two_dfs_remerge_witness :
  _concat_two_dfs shard1 shard2 = Ok consolidated12 ∧
  _concat_two_dfs consolidated12 shard2 = Ok consolidated12 ∧
  consolidated12 = consolidated12.
Proof.
  assert (_concat_two_dfs shard1 shard2 = Ok consolidated12) as H1
    by (vm_compute; reflexivity).
  assert (_concat_two_dfs consolidated12 shard2 = Ok consolidated12) as H2
    by (vm_compute; reflexivity).
  repeat (split; [assumption|]).
  apply (concat_two_dfs_remerge shard1 shard2 consolidated12 consolidated12);
    assumption.
Defined.

Lemma load_and_format_df_rows_witness :
  let out := [ {| event_id_cnty := "QQQ01"; iso := 999; iso3 := "QQQ";
                  event_date := 20200102; timestamp := 1;
                  _orig_fname := "03-acled_recent.csv";
                  attributes := [] |} ] in
  _load_and_format_df TEST_ISO_MAP mock_dir_recent "03-acled_recent.csv"
    = Ok out ∧
  ∃ raw,
    read_csv mock_dir_recent "03-acled_recent.csv" = Ok raw ∧
    Forall2 (λ r o, o = with_iso3 (iso3 o)
                          (with_orig_fname "03-acled_recent.csv" r))
            (rows raw) out ∧
    Forall (λ o, _orig_fname o = "03-acled_recent.csv") out.
Proof.
  intros out.
  assert (_load_and_format_df TEST_ISO_MAP mock_dir_recent
            "03-acled_recent.csv" = Ok out) as Hok
    by (vm_compute; reflexivity).
  split; [assumption|].
  apply (load_and_format_df_rows TEST_ISO_MAP mock_dir_recent
           "03-acled_recent.csv" out); assumption.
Defined.

Lemma concat_rows_of_shards_witness :
  timestamps_exact TEST_ISO_MAP mock_dir ∧
  concat_typed TEST_ISO_MAP true mock_dir mock_dtypes
    = Ok {| timestamp_dtype := float64; frame := consolidated12 |} ∧
  (∀ r, r ∈ consolidated12 →
     _orig_fname r ∈ entries mock_dir ∧ is_candidate (_orig_fname r) ∧
     ∃ shard,
       _load_and_format_df TEST_ISO_MAP mock_dir (_orig_fname r) = Ok shard ∧
       r ∈ shard) ∧
  (∀ path, path ∈ entries mock_dir → is_candidate path →
     ∃ shard,
       _load_and_format_df TEST_ISO_MAP mock_dir path = Ok shard ∧
       ∀ r, r ∈ shard →
         ∃ kept, kept ∈ consolidated12 ∧
                 event_id_cnty kept = event_id_cnty r ∧
                 timestamp r ≤ timestamp kept).
Proof.
  assert (timestamps_exact TEST_ISO_MAP mock_dir) as Hex by compute_done.
  assert (concat_typed TEST_ISO_MAP true mock_dir mock_dtypes
            = Ok {| timestamp_dtype := float64; frame := consolidated12 |})
    as Hrun by (vm_compute; reflexivity).
  split; [assumption|]. split; [assumption|].
  apply (concat_rows_of_shards TEST_ISO_MAP true mock_dir mock_dtypes
           {| timestamp_dtype := float64; frame := consolidated12 |});
    assumption.
Defined.

(** Beyond [2 ^ 53] the bound cannot be dropped: of two files that hold the
    edit times [2 ^ 63] and [2 ^ 63 - 1] for an event, the run returns the
    row of the second, whose edit time is the smaller. *)
Example concat_typed_big :
  ∃ df kept,
    concat_typed TEST_ISO_MAP true big_dir big_dtypes = Ok df ∧
    frame df = [kept] ∧ _orig_fname kept = "02-acled_big.csv".
Proof. do 2 eexists. split; [vm_compute; reflexivity|]. by split. Qed.

Lemma concat_errors_witness :
  concat TEST_ISO_MAP true mock_dir_gap = Raise (RuntimeError overlap_msg) ∧
  (_get_lexically_sorted_csv_paths (entries mock_dir_gap)
     = Raise (RuntimeError overlap_msg) ∨
   (∃ path, path ∈ entries mock_dir_gap ∧ is_candidate path ∧
            _load_and_format_df TEST_ISO_MAP mock_dir_gap path
              = Raise (RuntimeError overlap_msg)) ∨
   RuntimeError overlap_msg = RuntimeError empty_msg ∨
   RuntimeError overlap_msg = RuntimeError overlap_msg).
Proof.
  assert (concat TEST_ISO_MAP true mock_dir_gap
            = Raise (RuntimeError overlap_msg)) as Hrun
    by (vm_compute; reflexivity).
  split; [assumption|].
  apply (concat_errors TEST_ISO_MAP true mock_dir_gap); assumption.
Defined.

Lemma concat_depends_on_candidates_witness :
  filter is_candidate (entries mock_dir_rerun)
    = filter is_candidate (entries mock_dir) ∧
  concat TEST_ISO_MAP true mock_dir_rerun = concat TEST_ISO_MAP true mock_dir.
Proof.
  assert (filter is_candidate (entries mock_dir_rerun)
            = filter is_candidate (entries mock_dir)) as Hnames
    by (vm_compute; reflexivity).
  split; [assumption|].
  apply (concat_depends_on_candidates TEST_ISO_MAP true
           mock_dir_rerun mock_dir Hnames).
  intros path _ [_ Hout]. cbn [read_csv mock_dir_rerun].
  destruct (decide (path = "consolidated_acled.csv")) as [->|]; [|reflexivity].
  vm_compute in Hout. discriminate Hout.
Defined.

Lemma concat_listing_order_witness :
  reverse (entries mock_dir) ≡ₚ entries mock_dir ∧
  filter is_invalid_name (entries mock_dir) = [] ∧
  NoDup (prefixes (entries mock_dir)) ∧
  concat TEST_ISO_MAP true
    {| entries := reverse (entries mock_dir); read_csv := read_csv mock_dir |}
  = concat TEST_ISO_MAP true mock_dir.
Proof.
  assert (reverse (entries mock_dir) ≡ₚ entries mock_dir) as Hperm
    by apply reverse_Permutation.
  assert (filter is_invalid_name (entries mock_dir) = []) as Hnil
    by (vm_compute; reflexivity).
  assert (NoDup (prefixes (entries mock_dir))) as Hnd by compute_done.
  repeat (split; [assumption|]).
  apply (concat_listing_order TEST_ISO_MAP true mock_dir); assumption.
Defined.

Lemma discovery_outcomes_witness :
  filter is_invalid_name ["01-acled.csv"; "consolidated_acled.csv"] = [] ∧
  (length (filter is_candidate ["01-acled.csv"; "consolidated_acled.csv"])
     < 2)%nat ∧
  _get_lexically_sorted_csv_paths ["01-acled.csv"; "consolidated_acled.csv"]
    = Raise (RuntimeError too_few_msg).
Proof.
  assert (filter is_invalid_name ["01-acled.csv"; "consolidated_acled.csv"]
            = []) as Hnil by (vm_compute; reflexivity).
  assert (length (filter is_candidate
                    ["01-acled.csv"; "consolidated_acled.csv"]) < 2)%nat
    as Hlen by (vm_compute; lia).
  repeat (split; [assumption|]).
  apply (proj1 (discovery_outcomes
                  ["01-acled.csv"; "consolidated_acled.csv"])).
  split; assumption.
Defined.

Lemma pattern_match_spec_witness :
  is_digit "0" = true ∧ is_digit "7" = true ∧ no_newline "" = true ∧
  pattern_match "07-acled.csv" = Some 7%nat.
Proof.
  assert (is_digit "0" = true) as H0 by reflexivity.
  assert (is_digit "7" = true) as H7 by reflexivity.
  assert (no_newline "" = true) as Hx by reflexivity.
  repeat (split; [assumption|]).
  apply (proj2 (pattern_match_spec "07-acled.csv" 7)).
  exists "0"%char, "7"%char, "".
  repeat (split; [assumption|]). split; [left; reflexivity|reflexivity].
Defined.

Lemma format_df_failures_witness :
  ("iso3" ∉ columns mock_no_codes) ∧ ("iso" ∉ columns mock_no_codes) ∧
  _format_df TEST_ISO_MAP mock_no_codes = Raise (AttributeError "iso").
Proof.
  assert ("iso3" ∉ columns mock_no_codes) as H3 by compute_done.
  assert ("iso" ∉ columns mock_no_codes) as Hi by compute_done.
  repeat (split; [assumption|]).
  apply (proj2 (format_df_failures TEST_ISO_MAP mock_no_codes
                  (AttributeError "iso"))).
  left. repeat (split; [assumption|]). reflexivity.
Defined.

Lemma load_and_format_df_succeeds_witness :
  read_csv mock_dir "01-acled_mock.csv" = Ok mock_shard1 ∧
  codes_ok TEST_ISO_MAP mock_shard1 ∧
  (∀ c, c ∈ RETAINED_COLS →
        c ∈ columns mock_shard1 ∨ c = "iso3" ∨ c = "_orig_fname") ∧
  ∃ out, _load_and_format_df TEST_ISO_MAP mock_dir "01-acled_mock.csv"
           = Ok out.
Proof.
  assert (read_csv mock_dir "01-acled_mock.csv" = Ok mock_shard1) as Hraw
    by reflexivity.
  assert (codes_ok TEST_ISO_MAP mock_shard1) as Hc.
  { right. split; [compute_done|vm_compute; reflexivity]. }
  assert (∀ c, c ∈ RETAINED_COLS →
               c ∈ columns mock_shard1 ∨ c = "iso3" ∨ c = "_orig_fname")
    as Hcols.
  { apply (proj1 (Forall_forall
      (λ c, c ∈ columns mock_shard1 ∨ c = "iso3" ∨ c = "_orig_fname")
      RETAINED_COLS)). compute_done. }
  repeat (split; [assumption|]).
  apply (proj2 (load_and_format_df_succeeds TEST_ISO_MAP mock_dir
                  "01-acled_mock.csv")).
  exists mock_shard1. repeat (split; [assumption|]). assumption.
Defined.

Lemma concat_loop_empty_shard_witness :
  (shard1 = [] ∨ [] ∈ [shard2; []; shard3]) ∧
  [shard2; []; shard3] ≠ [] ∧
  ∀ acc, concat_loop true shard1 [shard2; []; shard3] ≠ Ok acc.
Proof.
  assert (shard1 = [] ∨ [] ∈ [shard2; []; shard3]) as He
    by (right; compute_done).
  assert ([shard2; []; shard3] ≠ []) as Hne by discriminate.
  repeat (split; [assumption|]).
  apply (proj1 (concat_loop_empty_shard true shard1 [shard2; []; shard3]));
    assumption.
Defined.

Lemma concat_loop_no_gap_witness :
  (∃ acc, concat_loop true shard1 ([shard2] ++ shard_repeat :: []) = Ok acc) ∧
  ∃ r r', r ∈ shard1 ++ mjoin [shard2] ∧ r' ∈ shard_repeat ∧
          event_date r' ≤ event_date r.
Proof.
  assert (∃ acc, concat_loop true shard1 ([shard2] ++ shard_repeat :: [])
                   = Ok acc) as Hrun
    by (eexists; vm_compute; reflexivity).
  split; [assumption|]. destruct Hrun as [acc Hacc].
  apply (concat_loop_no_gap true shard1 [shard2] shard_repeat [] acc);
    assumption.
Defined.
